(** * Candidate-search browsing agent: page compression, reference
      resolution, retrying action executor and the two agent loops.

    The development embeds, function by function,
    - [src/browser/extractor.ts]  (the page-context compressor),
    - [src/browser/controller.ts] (the Playwright controller),
    - [src/agent/coordinator.ts]  (the primary agent loop),
    - [src/agent/sub-agent.ts]    (the profile-scanner loop),
    and proves the properties the specification states about them.

    Conventions of the embedding.
    - A JavaScript string is a [string]; one [ascii] stands for one code
      unit (the development covers code units below 256).
    - A JavaScript [Map] is a [gmap]; a [Set] is a [gset].
    - A thrown value is the text [String(error)] renders of it.
    - The browser page, the human at the terminal and the inference
      service are external collaborators: each is an abstract world with
      the primitive operations the code awaits.  An async method is a
      state-and-exception computation over the fields it mutates and
      those worlds; [await] is sequencing, [try/catch] is [try_catch].
    - Console output, spinners and pure delays ([setTimeout]) carry no
      state and are left out. *)

From Stdlib Require Import Ascii String ZArith.
From stdpp Require Import gmap strings list pretty sorting.

#[local] Set Warnings "-clear-no-such-hyp".

Open Scope string_scope.

(** ** JavaScript strings *)

Module JsString.

(** [s.slice(0, n)] *)
Fixpoint slice0 (n : nat) (s : string) : string :=
  match n, s with
  | S n', String c s' => String c (slice0 n' s')
  | _, _ => ""
  end.

(** The white space class of [\s] and of [trim()], for code units
    below 256: TAB, LF, VT, FF, CR, SPACE and NBSP. *)
Definition is_ws (c : ascii) : bool :=
  match c with
  | "009" | "010" | "011" | "012" | "013" | " " | "160" => true
  | _ => false
  end%char.

Fixpoint trimStart (s : string) : string :=
  match s with
  | String c s' => if is_ws c then trimStart s' else s
  | "" => ""
  end.

(** [s.trim()] *)
Definition trim (s : string) : string :=
  String.rev (trimStart (String.rev (trimStart s))).

(** [s.replace(/\s+/g, ' ')]: [inrun] tells that the previous code unit
    was white space, already replaced. *)
Fixpoint collapse_go (inrun : bool) (s : string) : string :=
  match s with
  | "" => ""
  | String c s' =>
      if is_ws c
      then if inrun then collapse_go true s' else String " " (collapse_go true s')
      else String c (collapse_go false s')
  end.
Definition collapse_ws : string -> string := collapse_go false.

(** [s.split(/\s+/)] for a trimmed [s]; the empty string splits to
    [['']] in JavaScript and to [[]] here, both of which join to ['']. *)
Fixpoint split_go (cur : string) (s : string) : list string :=
  match s with
  | "" => if decide (cur = "") then [] else [String.rev cur]
  | String c s' =>
      if is_ws c
      then (if decide (cur = "") then [] else [String.rev cur]) ++ split_go "" s'
      else split_go (String c cur) s'
  end.
Definition split_ws : string -> list string := split_go "".

(** [parts.join(sep)] *)
Fixpoint join (sep : string) (parts : list string) : string :=
  match parts with
  | [] => ""
  | [p] => p
  | p :: rest => p +:+ sep +:+ join sep rest
  end.

(** [s.startsWith(p)] *)
Definition startsWith (p s : string) : bool := String.prefix p s.

(** [toLowerCase] on one code unit: A-Z, and the Latin-1 capitals
    other than the multiplication sign. *)
Definition lower_char (c : ascii) : ascii :=
  let n := nat_of_ascii c in
  if (((65 <=? n) && (n <=? 90)) || ((192 <=? n) && (n <=? 222) && negb (n =? 215)))%nat
  then ascii_of_nat (n + 32) else c.

Fixpoint toLowerCase (s : string) : string :=
  match s with
  | "" => ""
  | String c s' => String (lower_char c) (toLowerCase s')
  end.

(** [a || b] on strings: the empty string is falsy.  [null] and
    [undefined] are falsy too, so a nullable operand is first mapped
    to [""] by [nul]. *)
(** The double quote, one code unit. *)
Definition dquote : string := String (ascii_of_nat 34) "".

Definition or (a b : string) : string := if decide (a = "") then b else a.
Definition nul (o : option string) : string := default "" o.

End JsString.

Infix "|||" := JsString.or (at level 50, left associativity).

(** ** JSON values

    A tool result travels as [JSON.stringify(obj)]; the conversation of
    the model holds the value [obj] whose text that is. *)

#[local] Unset Elimination Schemes.
Inductive JSON :=
| JNull
| JBool (b : bool)
| JNum (n : Z)
| JStr (s : string)
| JArr (items : list JSON)
| JObj (fields : list (string * JSON)).
#[local] Set Elimination Schemes.

(** [obj[k]] on a parsed value; [None] is [undefined]. *)
Definition jfield (k : string) (j : JSON) : option JSON :=
  match j with
  | JObj fields => snd <$> List.find (fun kv => bool_decide (fst kv = k)) fields
  | _ => None
  end.

(** Truthiness of a possibly undefined JSON value. *)
Definition js_truthy (o : option JSON) : bool :=
  match o with
  | None | Some JNull | Some (JBool false) | Some (JStr "") => false
  | Some (JNum n) => negb (n =? 0)%Z
  | _ => true
  end.

(** ** The document, as the compressor reads it *)

(** One element on the way from a node up to the root: what
    [getSelector] reads of it.  [sameTagSiblings] and [siblingIndex]
    describe the element among the children of its parent that carry
    its tag: how many there are, and [siblings.indexOf(current)]. *)
Record DomElem := {
  tagName_lc : string;            (* tagName.toLowerCase() *)
  className : option string;      (* None: className is not a string *)
  isBody : bool;                  (* current === document.body *)
  sameTagSiblings : nat;
  siblingIndex : nat;
}.

(** A node of the document, with the properties and attributes the scan
    reads.  [ancestors] is the [parentElement] chain, nearest first, up
    to the element that has no parent. *)
Record Node := {
  self : DomElem;
  ancestors : list DomElem;
  node_id : string;                         (* el.id *)
  attributes : list (string * string);
  textContent : string;                     (* el.textContent || '' *)
  isVisible : bool;                         (* isVisible(el) *)
  placeholder : string;                     (* input.placeholder *)
  name : string;                            (* el.name *)
  type : string;                            (* input.type *)
}.

Definition getAttribute (k : string) (el : Node) : option string :=
  snd <$> List.find (fun kv => bool_decide (fst kv = k)) (attributes el).

Inductive ElementType := link | button | input | textarea | select.

#[global] Instance ElementType_eq_dec : EqDecision ElementType.
Proof. solve_decision. Defined.

(** The string a type is in the source. *)
Definition type_name (t : ElementType) : string :=
  match t with
  | link => "link" | button => "button" | input => "input"
  | textarea => "textarea" | select => "select"
  end.

(** An entry of [result] inside [page.evaluate]. *)
Record RawElement := {
  raw_type : ElementType;
  raw_text : string;
  raw_selector : string;
  raw_href : option string;
}.

Record PageElement := {
  ref : string;
  el_type : ElementType;
  text : string;
  selector : string;
  href : option string;
}.

Record PageContext := {
  url : string;
  title : string;
  elements : list PageElement;
}.

Module Extractor.
Import JsString.

(** One turn of the [while] loop of [getSelector]: the selector of
    [current], whose parent exists iff [hasParent]. *)
Definition pathPart (current : DomElem) (hasParent : bool) : string :=
  let selector := tagName_lc current in
  let selector :=
    match className current with
    | Some cn =>
        if decide (cn = "") then selector
        else
          let classes := join "." (take 2 (split_ws (trim cn))) in
          if decide (classes = "") then selector else selector +:+ "." +:+ classes
    | None => selector
    end in
  if hasParent && (1 <? sameTagSiblings current)%nat
  then selector +:+ ":nth-of-type(" +:+ pretty (siblingIndex current + 1)%nat +:+ ")"
  else selector.

(** The loop itself: [chain] is [current] followed by its ancestors,
    [[]] when [current] is [null]; [pathParts] grows at the front. *)
Fixpoint pathLoop (chain : list DomElem) (pathParts : list string) : list string :=
  match chain with
  | [] => pathParts
  | current :: parents =>
      if isBody current then pathParts
      else
        let pathParts := pathPart current (bool_decide (parents <> [])) :: pathParts in
        if (4 <? length pathParts)%nat then pathParts else pathLoop parents pathParts
  end.

Definition getSelector (el : Node) : string :=
  if decide (node_id el = "") then
    match getAttribute "data-testid" el with
    | Some testId =>
        if decide (testId = "") then
          (if decide (nul (getAttribute "aria-label" el) = "")
           then join " > " (pathLoop (self el :: ancestors el) [])
           else "[aria-label=" +:+ dquote +:+ nul (getAttribute "aria-label" el) +:+ dquote +:+ "]")
        else "[data-testid=" +:+ dquote +:+ testId +:+ dquote +:+ "]"
    | None =>
        if decide (nul (getAttribute "aria-label" el) = "")
        then join " > " (pathLoop (self el :: ancestors el) [])
        else "[aria-label=" +:+ dquote +:+ nul (getAttribute "aria-label" el) +:+ dquote +:+ "]"
    end
  else "#" +:+ node_id el.

Definition getText (el : Node) : string :=
  let text := collapse_ws (trim (textContent el)) in
  slice0 100 text.

Definition tag (el : Node) : string := tagName_lc (self el).

(** The four selector lists of [querySelectorAll]. *)
Definition matchesLink (el : Node) : bool :=
  bool_decide (tag el = "a") && bool_decide (is_Some (getAttribute "href" el)).

Definition matchesButton (el : Node) : bool :=
  bool_decide (tag el = "button")
  || bool_decide (getAttribute "role" el = Some "button")
  || (bool_decide (tag el = "input") &&
      (bool_decide (getAttribute "type" el = Some "submit")
       || bool_decide (getAttribute "type" el = Some "button"))).

Definition matchesInput (el : Node) : bool :=
  (bool_decide (tag el = "input")
   && negb (bool_decide (getAttribute "type" el = Some "hidden"))
   && negb (bool_decide (getAttribute "type" el = Some "submit"))
   && negb (bool_decide (getAttribute "type" el = Some "button")))
  || bool_decide (tag el = "textarea").

Definition matchesSelect (el : Node) : bool := bool_decide (tag el = "select").

(** The bodies of the four [forEach] callbacks: what one node pushes. *)
Definition linkEntry (el : Node) : list RawElement :=
  if negb (isVisible el) then [] else
  let href := nul (getAttribute "href" el) in
  let text := getText el ||| nul (getAttribute "aria-label" el) ||| href in
  if negb (bool_decide (text = "")) && negb (bool_decide (href = ""))
     && negb (startsWith "javascript:" href)
  then [ {| raw_type := link; raw_text := slice0 80 text;
            raw_selector := getSelector el; raw_href := Some href |} ]
  else [].

Definition buttonEntry (el : Node) : list RawElement :=
  if negb (isVisible el) then [] else
  let text := getText el ||| nul (getAttribute "aria-label" el)
              ||| nul (getAttribute "value" el) ||| "Button" in
  [ {| raw_type := button; raw_text := slice0 80 text;
       raw_selector := getSelector el; raw_href := None |} ].

Definition inputEntry (el : Node) : list RawElement :=
  if negb (isVisible el) then [] else
  let text := placeholder el ||| nul (getAttribute "aria-label" el)
              ||| name el ||| type el ||| "Input" in
  [ {| raw_type := if decide (tag el = "textarea") then textarea else input;
       raw_text := slice0 80 text;
       raw_selector := getSelector el; raw_href := None |} ].

Definition selectEntry (el : Node) : list RawElement :=
  if negb (isVisible el) then [] else
  let text := nul (getAttribute "aria-label" el) ||| name el ||| "Select" in
  [ {| raw_type := select; raw_text := slice0 80 text;
       raw_selector := getSelector el; raw_href := None |} ].

(** [querySelectorAll(sel).forEach(body)] over the document in
    document order. *)
Fixpoint forEachMatch (sel : Node -> bool) (body : Node -> list RawElement)
    (document : list Node) : list RawElement :=
  match document with
  | [] => []
  | el :: rest =>
      (if sel el then body el else []) ++ forEachMatch sel body rest
  end.

(** The callback of [page.evaluate]: the four passes in their order. *)
Definition scanDocument (document : list Node) : list RawElement :=
  forEachMatch matchesLink linkEntry document
  ++ forEachMatch matchesButton buttonEntry document
  ++ forEachMatch matchesInput inputEntry document
  ++ forEachMatch matchesSelect selectEntry document.

(** The key the [seen] set holds. *)
Definition dedupKey (el : RawElement) : string :=
  type_name (raw_type el) +:+ ":" +:+ raw_text el +:+ ":" +:+ nul (raw_href el).

(** [elements.filter(...)] with its [seen] set. *)
Fixpoint dedup (seen : gset string) (els : list RawElement) : list RawElement :=
  match els with
  | [] => []
  | el :: rest =>
      let key := dedupKey el in
      if decide (key ∈ seen) then dedup seen rest
      else el :: dedup ({[ key ]} ∪ seen) rest
  end.

Definition prefix (t : ElementType) : string :=
  match t with
  | link => "link"
  | button => "btn"
  | t => type_name t
  end.

(** [.map(...)] with the [counters] record it mutates. *)
Fixpoint assignRefs (counters : ElementType -> nat) (els : list RawElement)
    : list PageElement :=
  match els with
  | [] => []
  | el :: rest =>
      let n := (counters (raw_type el) + 1)%nat in
      let counters := fun t => if decide (t = raw_type el) then n else counters t in
      {| ref := prefix (raw_type el) +:+ "_" +:+ pretty n;
         el_type := raw_type el;
         text := raw_text el;
         selector := raw_selector el;
         href := raw_href el |}
      :: assignRefs counters rest
  end.

(** [pageElements] of [extractPageContext], from the scanned list. *)
Definition compress (raw : list RawElement) : list PageElement :=
  assignRefs (fun _ => 0%nat) (take 150 (dedup ∅ raw)).

Definition pageElements (document : list Node) : list PageElement :=
  compress (scanDocument document).


(** The semantic signature of an entry. *)
Definition signature (el : PageElement) : ElementType * string * option string :=
  (el_type el, text el, href el).

Definition raw_signature (el : RawElement) : ElementType * string * option string :=
  (raw_type el, raw_text el, raw_href el).

End Extractor.

(** ** Conversation entries *)

(** A tool invocation of a model proposal.  [tc_args] is the value of
    [JSON.parse(toolCall.function.arguments)], [None] when it throws. *)
Record ToolCall := {
  tc_id : string;
  tc_name : string;
  tc_args : option JSON;
}.

(** [response.choices[0].message] *)
Record AssistantMessage := {
  content : option string;
  tool_calls : list ToolCall;
}.

Inductive Message :=
| SystemMessage (text : string)
| UserMessage (text : string)
| Assistant (message : AssistantMessage)
| ToolMessage (tool_call_id : string) (result : JSON).

(** ** Results

    The shapes are read off the places that build and read them. *)

Inductive Data :=
| DJson (j : JSON)
| DContext (context : PageContext).

(** The uniform envelope of the controller. *)
Record ToolResult := {
  success : bool;
  data : option Data;
  error : option string;
}.

Definition succeeded (d : Data) : ToolResult :=
  {| success := true; data := Some d; error := None |}.
Definition failed (e : string) : ToolResult :=
  {| success := false; data := None; error := Some e |}.

Record TaskResult := {
  tr_success : bool;
  candidates : option JSON;
  summary : option JSON;
}.

Record ProfileScanResult := {
  psr_success : bool;
  profileUrl : string;
  socialLinks : JSON;
  tldrSummary : JSON;
  additionalData : option JSON;
}.

(** ** The collaborators *)

Definition Err := string.

(** What the controller awaits of the Playwright page. *)
Inductive PageOp :=
| Goto (url : string) (timeout : N)
| WaitForTimeout (ms : N)
| WaitForLoadState (timeout : N)
| ScrollIntoViewIfNeeded (selector : string) (timeout : option N)
| Click (selector : string) (force : bool) (clickCount : nat) (timeout : option N)
| KeyboardPress (key : string)
| KeyboardType (text : string) (delay : N)
| Fill (selector : string) (text : string)
| PressSequentially (selector : string) (text : string) (delay : N)
| MouseWheel (dx dy : Z).

(** The extractions of [extractor.ts] that lie outside the core; each is
    one [page.evaluate] whose value is taken as the page gives it. *)
Inductive Extraction :=
| Candidates | SocialLinks | ProfileTabs | DetailedProfileInfo.

Class Env := {
  Page : Type;
  Human : Type;
  Oracle : Type;
  (** a page operation resolves ([None]) or throws *)
  page_do : PageOp -> Page -> option Err * Page;
  page_url : Page -> string;
  page_title : Page -> (Err + string) * Page;
  (** the document [page.evaluate] walks in [extractPageContext] *)
  page_document : Page -> (Err + list Node) * Page;
  page_extract : Extraction -> Page -> (Err + JSON) * Page;
  page_textSummary : Page -> (Err + string) * Page;
  (** [openai.chat.completions.create({model, messages, ...})], down to
      [choices[0].message] *)
  chat_create : string -> list Message -> Oracle -> (Err + AssistantMessage) * Oracle;
  (** [rl.question(prompt)] *)
  rl_question : Human -> (Err + string) * Human;
}.

(** ** The machine: every field the two agents and the controller mutate *)

Record Machine `{Env} := {
  page : Page;
  human : Human;
  oracle : Oracle;
  (* BrowserController *)
  elementMap : gmap string string;
  retryCount : gmap string nat;
  (* AgentCoordinator *)
  messages : list Message;
  taskComplete : bool;
  taskResult : option TaskResult;
  (* ProfileScannerSubAgent; [scanMessages] is the array the local
     [messages] of [scanProfile] names *)
  scanMessages : list Message;
  scanComplete : bool;
  scanResult : option ProfileScanResult;
}.

Section Monad.
Context `{Env}.

Definition set_page (x : Page) (m : Machine) : Machine :=
  {| page := x; human := human m; oracle := oracle m;
     elementMap := elementMap m; retryCount := retryCount m;
     messages := messages m; taskComplete := taskComplete m;
     taskResult := taskResult m; scanMessages := scanMessages m;
     scanComplete := scanComplete m; scanResult := scanResult m |}.
Definition set_human (x : Human) (m : Machine) : Machine :=
  {| page := page m; human := x; oracle := oracle m;
     elementMap := elementMap m; retryCount := retryCount m;
     messages := messages m; taskComplete := taskComplete m;
     taskResult := taskResult m; scanMessages := scanMessages m;
     scanComplete := scanComplete m; scanResult := scanResult m |}.
Definition set_oracle (x : Oracle) (m : Machine) : Machine :=
  {| page := page m; human := human m; oracle := x;
     elementMap := elementMap m; retryCount := retryCount m;
     messages := messages m; taskComplete := taskComplete m;
     taskResult := taskResult m; scanMessages := scanMessages m;
     scanComplete := scanComplete m; scanResult := scanResult m |}.
Definition set_elementMap (x : gmap string string) (m : Machine) : Machine :=
  {| page := page m; human := human m; oracle := oracle m;
     elementMap := x; retryCount := retryCount m;
     messages := messages m; taskComplete := taskComplete m;
     taskResult := taskResult m; scanMessages := scanMessages m;
     scanComplete := scanComplete m; scanResult := scanResult m |}.
Definition set_retryCount (x : gmap string nat) (m : Machine) : Machine :=
  {| page := page m; human := human m; oracle := oracle m;
     elementMap := elementMap m; retryCount := x;
     messages := messages m; taskComplete := taskComplete m;
     taskResult := taskResult m; scanMessages := scanMessages m;
     scanComplete := scanComplete m; scanResult := scanResult m |}.
Definition set_messages (x : list Message) (m : Machine) : Machine :=
  {| page := page m; human := human m; oracle := oracle m;
     elementMap := elementMap m; retryCount := retryCount m;
     messages := x; taskComplete := taskComplete m;
     taskResult := taskResult m; scanMessages := scanMessages m;
     scanComplete := scanComplete m; scanResult := scanResult m |}.
Definition set_taskComplete (x : bool) (m : Machine) : Machine :=
  {| page := page m; human := human m; oracle := oracle m;
     elementMap := elementMap m; retryCount := retryCount m;
     messages := messages m; taskComplete := x;
     taskResult := taskResult m; scanMessages := scanMessages m;
     scanComplete := scanComplete m; scanResult := scanResult m |}.
Definition set_taskResult (x : option TaskResult) (m : Machine) : Machine :=
  {| page := page m; human := human m; oracle := oracle m;
     elementMap := elementMap m; retryCount := retryCount m;
     messages := messages m; taskComplete := taskComplete m;
     taskResult := x; scanMessages := scanMessages m;
     scanComplete := scanComplete m; scanResult := scanResult m |}.
Definition set_scanMessages (x : list Message) (m : Machine) : Machine :=
  {| page := page m; human := human m; oracle := oracle m;
     elementMap := elementMap m; retryCount := retryCount m;
     messages := messages m; taskComplete := taskComplete m;
     taskResult := taskResult m; scanMessages := x;
     scanComplete := scanComplete m; scanResult := scanResult m |}.
Definition set_scanComplete (x : bool) (m : Machine) : Machine :=
  {| page := page m; human := human m; oracle := oracle m;
     elementMap := elementMap m; retryCount := retryCount m;
     messages := messages m; taskComplete := taskComplete m;
     taskResult := taskResult m; scanMessages := scanMessages m;
     scanComplete := x; scanResult := scanResult m |}.
Definition set_scanResult (x : option ProfileScanResult) (m : Machine) : Machine :=
  {| page := page m; human := human m; oracle := oracle m;
     elementMap := elementMap m; retryCount := retryCount m;
     messages := messages m; taskComplete := taskComplete m;
     taskResult := taskResult m; scanMessages := scanMessages m;
     scanComplete := scanComplete m; scanResult := x |}.

(** An awaited computation: it returns or throws, and leaves a machine. *)
Definition M (A : Type) : Type := Machine -> (Err + A) * Machine.

Definition ret {A} (a : A) : M A := fun m => (inr a, m).
Definition throw {A} (e : Err) : M A := fun m => (inl e, m).
Definition bind {A B} (c : M A) (k : A -> M B) : M B :=
  fun m => match c m with
           | (inr a, m') => k a m'
           | (inl e, m') => (inl e, m')
           end.
Definition try_catch {A} (body : M A) (handler : Err -> M A) : M A :=
  fun m => match body m with
           | (inl e, m') => handler e m'
           | (inr a, m') => (inr a, m')
           end.

Definition gets {A} (f : Machine -> A) : M A := fun m => (inr (f m), m).
Definition modify (f : Machine -> Machine) : M unit := fun m => (inr tt, f m).

(** The machine a computation leaves, and what it returned. *)
Definition exec {A} (c : M A) (m : Machine) : Machine := snd (c m).
Definition outcome {A} (c : M A) (m : Machine) : Err + A := fst (c m).

Definition await_page (op : PageOp) : M unit :=
  fun m => match page_do op (page m) with
           | (None, p) => (inr tt, set_page p m)
           | (Some e, p) => (inl e, set_page p m)
           end.

Definition on_page {A} (f : Page -> (Err + A) * Page) : M A :=
  fun m => let '(r, p) := f (page m) in (r, set_page p m).

Definition await_chat (model : string) (msgs : list Message) : M AssistantMessage :=
  fun m => let '(r, o) := chat_create model msgs (oracle m) in (r, set_oracle o m).

Definition await_question : M string :=
  fun m => let '(r, h) := rl_question (human m) in (r, set_human h m).

End Monad.

Notation "'let!' x ':=' c 'in' k" := (bind c (fun x => k))
  (at level 10, x pattern, c at level 100, k at level 200).
Notation "c ';;' k" := (bind c (fun _ => k))
  (at level 100, k at level 200, right associativity).

(** ** [BrowserController] ([src/browser/controller.ts]), after
    [initialize()]: [getPage()] returns the page. *)

Section Controller.
Context `{Env}.
Import JsString.

(** [extractPageContext(page)] *)
Definition extractPageContext : M PageContext :=
  let! url := gets (fun m => page_url (page m)) in
  let! title := on_page page_title in
  let! document := on_page page_document in
  ret {| url := url; title := title;
         elements := Extractor.pageElements document |}.

Definition getRetryKey (action : string) (args : list string) : string :=
  action +:+ ":" +:+ join ":" args.

Definition checkRetryLimit (key : string) : M bool :=
  let! count := gets (fun m => default 0%nat (retryCount m !! key)) in
  if (3 <=? count)%nat then
    modify (fun m => set_retryCount (delete key (retryCount m)) m) ;;
    ret false
  else
    modify (fun m => set_retryCount (<[key := (count + 1)%nat]> (retryCount m)) m) ;;
    ret true.

Definition clearRetry (key : string) : M unit :=
  modify (fun m => set_retryCount (delete key (retryCount m)) m).

Definition navigate (url : string) : M ToolResult :=
  let retryKey := getRetryKey "navigate" [url] in
  try_catch
    (let url := if negb (startsWith "http://" url) && negb (startsWith "https://" url)
                then "https://" +:+ url else url in
     await_page (Goto url 20000) ;;
     await_page (WaitForTimeout 1000) ;;
     clearRetry retryKey ;;
     let! u := gets (fun m => page_url (page m)) in
     let! t := on_page page_title in
     ret (succeeded (DJson (JObj [("url", JStr u); ("title", JStr t)]))))
    (fun error =>
       let! again := checkRetryLimit retryKey in
       if again
       then ret (failed ("Navigation failed: " +:+ error +:+ ". Retrying..."))
       else ret (failed ("Navigation failed after retries: " +:+ error))).

(** The [try] block of [click]. *)
Definition clickPrimary (selector : string) : M unit :=
  await_page (ScrollIntoViewIfNeeded selector (Some 5000%N)) ;;
  await_page (WaitForTimeout 200) ;;
  await_page (Click selector false 1 (Some 5000%N)) ;;
  await_page (WaitForTimeout 500).

(** The forced click of the [catch] block. *)
Definition clickForced (selector : string) : M unit :=
  await_page (Click selector true 1 (Some 3000%N)).

Definition staleClick (ref : string) : string :=
  "Element " +:+ dquote +:+ ref +:+ dquote
  +:+ " not found. Call get_page_context() first to refresh elements.".

(** [click] once [ref] resolved to [selector]: the [try] and its [catch]. *)
Definition clickSelector (ref selector : string) : M ToolResult :=
  let retryKey := getRetryKey "click" [ref] in
  try_catch
    (clickPrimary selector ;;
     clearRetry retryKey ;;
     ret (succeeded (DJson (JObj [("clicked", JStr ref)]))))
    (fun error =>
       let! again := checkRetryLimit retryKey in
       if again then
         try_catch
           (clickForced selector ;;
            clearRetry retryKey ;;
            ret (succeeded (DJson (JObj [("clicked", JStr ref);
                                         ("forced", JBool true)]))))
           (fun _ =>
              ret (failed ("Click failed: " +:+ error
                           +:+ ". Try scrolling or refreshing page context.")))
       else ret (failed ("Click failed after retries: " +:+ error))).

Definition click (ref : string) : M ToolResult :=
  let! selector := gets (fun m => elementMap m !! ref) in
  match selector with
  | None => ret (failed (staleClick ref))
  | Some selector =>
      if decide (selector = "") then ret (failed (staleClick ref))
      else clickSelector ref selector
  end.

Definition staleType (ref : string) : string :=
  "Element " +:+ dquote +:+ ref +:+ dquote
  +:+ " not found. Call get_page_context() first.".

Definition pressEnterAndWait (pressEnter : bool) (ms : N) : M unit :=
  if pressEnter
  then await_page (KeyboardPress "Enter") ;; await_page (WaitForTimeout ms)
  else ret tt.

Definition typed (text : string) (pressEnter : bool) (method : list (string * JSON))
    : ToolResult :=
  succeeded (DJson (JObj ([("typed", JStr text); ("pressedEnter", JBool pressEnter)]
                          ++ method))).

(** [typeText] once [ref] resolved to [selector]: the three strategies. *)
Definition typeSelector (ref selector text : string) (pressEnter : bool) : M ToolResult :=
  let retryKey := getRetryKey "type" [ref] in
  try_catch
    (await_page (ScrollIntoViewIfNeeded selector (Some 5000%N)) ;;
     await_page (WaitForTimeout 300) ;;
     await_page (Click selector false 1 (Some 5000%N)) ;;
     await_page (WaitForTimeout 500) ;;
     await_page (Click selector false 3 None) ;;
     await_page (WaitForTimeout 200) ;;
     await_page (KeyboardPress "Delete") ;;
     await_page (WaitForTimeout 200) ;;
     await_page (KeyboardType text 80) ;;
     await_page (WaitForTimeout 300) ;;
     pressEnterAndWait pressEnter 2000 ;;
     clearRetry retryKey ;;
     ret (typed text pressEnter []))
    (fun error =>
       let! again := checkRetryLimit retryKey in
       if again then
         try_catch
           (await_page (ScrollIntoViewIfNeeded selector None) ;;
            await_page (Fill selector text) ;;
            await_page (WaitForTimeout 300) ;;
            pressEnterAndWait pressEnter 1500 ;;
            clearRetry retryKey ;;
            ret (typed text pressEnter [("method", JStr "fill")]))
           (fun fillError =>
              try_catch
                (await_page (Click selector false 1 None) ;;
                 await_page (WaitForTimeout 200) ;;
                 await_page (PressSequentially selector text 100) ;;
                 pressEnterAndWait pressEnter 1500 ;;
                 clearRetry retryKey ;;
                 ret (typed text pressEnter
                        [("method", JStr "pressSequentially")]))
                (fun _ =>
                   ret (failed ("All type methods failed. Last error: "
                                +:+ error))))
       else ret (failed ("Type failed after retries: " +:+ error))).

Definition typeText (ref : string) (text : string) (pressEnter : bool) : M ToolResult :=
  let! selector := gets (fun m => elementMap m !! ref) in
  match selector with
  | None => ret (failed (staleType ref))
  | Some selector =>
      if decide (selector = "") then ret (failed (staleType ref))
      else typeSelector ref selector text pressEnter
  end.

(** [direction] is the string the caller passed. *)
Definition scroll (direction : string) : M ToolResult :=
  try_catch
    (let delta := if decide (direction = "down") then 500%Z else (-500)%Z in
     await_page (MouseWheel 0 delta) ;;
     await_page (WaitForTimeout 500) ;;
     ret (succeeded (DJson (JObj [("scrolled", JStr direction)]))))
    (fun error => ret (failed ("Scroll failed: " +:+ error))).

(** [elementMap.clear()] and the [for] loop of [set] calls. *)
Definition refreshElementMap (els : list PageElement) : gmap string string :=
  foldl (fun map el => <[ref el := selector el]> map) ∅ els.

Definition getPageContext : M ToolResult :=
  try_catch
    (await_page (WaitForLoadState 10000) ;;
     let! context := extractPageContext in
     modify (set_elementMap (refreshElementMap (elements context))) ;;
     ret (succeeded (DContext context)))
    (fun error => ret (failed ("Failed to extract page context: " +:+ error))).

Definition extractCandidates : M ToolResult :=
  try_catch
    (let! candidates := on_page (page_extract Candidates) in
     ret (succeeded (DJson (JObj [("candidates", candidates)]))))
    (fun error => ret (failed ("Failed to extract candidates: " +:+ error))).

Definition extractSocialLinks : M ToolResult :=
  try_catch
    (let! socialLinks := on_page (page_extract SocialLinks) in
     ret (succeeded (DJson socialLinks)))
    (fun error => ret (failed ("Failed to extract social links: " +:+ error))).

Definition extractProfileTabs : M ToolResult :=
  try_catch
    (let! tabs := on_page (page_extract ProfileTabs) in
     ret (succeeded (DJson tabs)))
    (fun error => ret (failed ("Failed to extract profile tabs: " +:+ error))).

Definition extractDetailedProfileInfo : M ToolResult :=
  try_catch
    (let! info := on_page (page_extract DetailedProfileInfo) in
     ret (succeeded (DJson info)))
    (fun error =>
       ret (failed ("Failed to extract detailed profile info: " +:+ error))).

Definition getPageTextSummary : M ToolResult :=
  try_catch
    (let! summary := on_page page_textSummary in
     ret (succeeded (DJson (JStr summary))))
    (fun error => ret (failed ("Failed to get page text summary: " +:+ error))).

End Controller.

(** ** Serialisation and argument access shared by the two agents *)

Section Wire.
Context `{Env}.
Import JsString.

Definition json_of_element (el : PageElement) : JSON :=
  JObj ([("ref", JStr (ref el)); ("type", JStr (type_name (el_type el)));
         ("text", JStr (text el)); ("selector", JStr (selector el))]
        ++ match href el with Some h => [("href", JStr h)] | None => [] end).

Definition json_of_context (c : PageContext) : JSON :=
  JObj [("url", JStr (url c)); ("title", JStr (title c));
        ("elements", JArr (json_of_element <$> elements c))].

Definition json_of_data (d : Data) : JSON :=
  match d with
  | DJson j => j
  | DContext c => json_of_context c
  end.

(** The value [JSON.stringify(result)] renders: absent fields are
    omitted. *)
Definition json_of_result (r : ToolResult) : JSON :=
  JObj ([("success", JBool (success r))]
        ++ match data r with Some d => [("data", json_of_data d)] | None => [] end
        ++ match error r with Some e => [("error", JStr e)] | None => [] end).

(** [args.k]: reading a property of [null] throws. *)
Definition prop (k : string) (args : JSON) : M (option JSON) :=
  match args with
  | JNull => throw ("TypeError: Cannot read properties of null (reading '"
                    +:+ k +:+ "')")
  | _ => ret (jfield k args)
  end.

(** A value the code passes on as a string, at its declared type. *)
Definition as_string (v : option JSON) : string :=
  match v with
  | Some (JStr s) => s
  | _ => "undefined"
  end.

(** [for (const x of xs) { await body(x) }] *)
Fixpoint forEach {A} (xs : list A) (body : A -> M unit) : M unit :=
  match xs with
  | [] => ret tt
  | x :: rest => body x ;; forEach rest body
  end.

Definition newline : string := String (ascii_of_nat 10) "".

End Wire.

(** ** [ProfileScannerSubAgent] ([src/agent/sub-agent.ts]) *)

Section SubAgent.
Context `{Env}.
Import JsString.

Definition SUB_AGENT_MAX_ITERATIONS : nat := 15.

(** The prompt is opaque to the loop; its heading stands for it. *)
Definition SUB_AGENT_SYSTEM_PROMPT : string := "# Role: Profile Scanner Sub-Agent".

Definition executeSubAgentStep (msgs : list Message) : M AssistantMessage :=
  try_catch (await_chat "gpt-4o-mini" msgs) (fun error => throw error).

(** [Promise.all] over four controller calls; they are issued in this
    order and each catches its own errors. *)
Definition extractProfileData : M JSON :=
  let! socialLinks := extractSocialLinks in
  let! tabs := extractProfileTabs in
  let! detailedInfo := extractDetailedProfileInfo in
  let! pageText := getPageTextSummary in
  ret (JObj [("success", JBool true);
             ("socialLinks", if success socialLinks
                             then default JNull (json_of_data <$> data socialLinks)
                             else JObj []);
             ("tabs", if success tabs
                      then default JNull (json_of_data <$> data tabs)
                      else JArr []);
             ("detailedInfo", if success detailedInfo
                              then default JNull (json_of_data <$> data detailedInfo)
                              else JObj []);
             ("pageTextPreview",
               if success pageText
               then JStr (slice0 500 (as_string (json_of_data <$> data pageText)))
               else JStr "")]).

Definition completeScan (socialLinks tldrSummary additionalData : option JSON) : M JSON :=
  modify (set_scanComplete true) ;;
  modify (set_scanResult (Some
    {| psr_success := true;
       profileUrl := "";
       socialLinks := if js_truthy socialLinks then default JNull socialLinks else JObj [];
       tldrSummary := if js_truthy tldrSummary then default JNull tldrSummary
                      else JStr "No summary generated";
       additionalData := additionalData |})) ;;
  ret (JObj [("success", JBool true); ("message", JStr "Scan completed")]).

Definition executeSubAgentTool (toolCall : ToolCall) : M JSON :=
  let name := tc_name toolCall in
  let args := default (JObj []) (tc_args toolCall) in
  if decide (name = "get_page_context") then
    let! r := getPageContext in ret (json_of_result r)
  else if decide (name = "click") then
    let! ref := prop "ref" args in
    let! r := click (as_string ref) in ret (json_of_result r)
  else if decide (name = "scroll") then
    let! direction := prop "direction" args in
    let! r := scroll (as_string direction) in ret (json_of_result r)
  else if decide (name = "extract_profile_data") then
    extractProfileData
  else if decide (name = "complete_scan") then
    let! socialLinks := prop "socialLinks" args in
    let! tldrSummary := prop "tldrSummary" args in
    let! additionalData := prop "additionalData" args in
    completeScan socialLinks tldrSummary additionalData
  else ret (JObj [("error", JStr ("Unknown tool: " +:+ name))]).

Definition pushScan (msg : Message) : M unit :=
  modify (fun m => set_scanMessages (scanMessages m ++ [msg]) m).

(** The body of the [for] loop over the invocations of a proposal. *)
Definition answerToolCall (toolCall : ToolCall) : M unit :=
  let! result := executeSubAgentTool toolCall in
  pushScan (ToolMessage (tc_id toolCall) result).

(** The body of the [while] loop; [false] is [break]. *)
Definition scanIteration : M bool :=
  try_catch
    (let! msgs := gets scanMessages in
     let! response := executeSubAgentStep msgs in
     match tool_calls response with
     | _ :: _ =>
         pushScan (Assistant response) ;;
         forEach (tool_calls response) answerToolCall ;;
         ret true
     | [] =>
         if decide (nul (content response) = "") then ret true
         else pushScan (Assistant response) ;; ret true
     end)
    (fun error => ret false).

(** [while (!this.scanComplete && iteration < SUB_AGENT_MAX_ITERATIONS)]:
    [remaining] is the ceiling less [iteration]; the value is
    [iteration] when the loop is left. *)
Fixpoint scanLoop (remaining iteration : nat) : M nat :=
  match remaining with
  | O => ret iteration
  | S remaining =>
      let! complete := gets scanComplete in
      if complete then ret iteration
      else
        let iteration := S iteration in
        let! continue := scanIteration in
        if continue then scanLoop remaining iteration else ret iteration
  end.

Definition scanProfile (profileUrl username : string) : M ProfileScanResult :=
  modify (set_scanComplete false) ;;
  modify (set_scanResult None) ;;
  let! currentUrl := navigate profileUrl in
  if negb (success currentUrl) then
    ret {| psr_success := false;
           profileUrl := profileUrl;
           socialLinks := JObj [];
           tldrSummary := JStr "Failed to scan profile - navigation error";
           additionalData := None |}
  else
    modify (set_scanMessages
      [ SystemMessage SUB_AGENT_SYSTEM_PROMPT;
        UserMessage ("Scan this profile thoroughly: " +:+ profileUrl +:+ newline
                     +:+ "Username: " +:+ username +:+ newline +:+ newline
                     +:+ "Start by extracting profile data, then explore tabs and create a TL;DR summary.") ]) ;;
    scanLoop SUB_AGENT_MAX_ITERATIONS 0 ;;
    let! result := gets scanResult in
    match result with
    | Some result => ret result
    | None =>
        let! socialLinks := extractSocialLinks in
        let! pageTextResult := getPageTextSummary in
        let pageText := if success pageTextResult
                        then as_string (json_of_data <$> data pageTextResult)
                        else "" in
        let result :=
          {| psr_success := true;
             profileUrl := profileUrl;
             socialLinks := if success socialLinks
                            then default JNull (json_of_data <$> data socialLinks)
                            else JObj [];
             tldrSummary := JStr ("Profile scanned (fallback): "
                                  +:+ slice0 200 pageText +:+ "...");
             additionalData := None |} in
        modify (set_scanResult (Some result)) ;;
        ret result
    end.

End SubAgent.

(** ** [AgentCoordinator] ([src/agent/coordinator.ts]) *)

Section Coordinator.
Context `{Env}.
Import JsString.

Definition MAX_ITERATIONS : nat := 500.

(** The prompts are opaque to the loop; their headings stand for them. *)
Definition SYSTEM_PROMPT : string := "# Role and Identity".
Definition formatTaskPrompt (task : string) : string :=
  "# Your Task" +:+ newline +:+ newline +:+ task +:+ newline +:+ newline
  +:+ "---" +:+ newline +:+ newline +:+ "# Execution Checklist".

Definition push (msg : Message) : M unit :=
  modify (fun m => set_messages (messages m ++ [msg]) m).

Definition handleNavigate (args : JSON) : M JSON :=
  let! url := prop "url" args in
  let! result := navigate (as_string url) in
  ret (json_of_result result).

Definition handleClick (args : JSON) : M JSON :=
  let! ref := prop "ref" args in
  let! result := click (as_string ref) in
  ret (json_of_result result).

Definition handleTypeText (args : JSON) : M JSON :=
  let! ref := prop "ref" args in
  let! text := prop "text" args in
  let! pressEnter := prop "pressEnter" args in
  let! result := typeText (as_string ref) (as_string text) (js_truthy pressEnter) in
  ret (json_of_result result).

Definition handleScroll (args : JSON) : M JSON :=
  let! direction := prop "direction" args in
  let! result := scroll (as_string direction) in
  ret (json_of_result result).

(** The element list as the model sees it: no selectors. *)
Definition formatElement (el : PageElement) : JSON :=
  JObj ([("ref", JStr (ref el)); ("type", JStr (type_name (el_type el)));
         ("text", JStr (text el))]
        ++ if decide (nul (href el) = "") then []
           else [("href", JStr (slice0 100 (nul (href el))))]).

Definition handleGetPageContext : M JSON :=
  let! result := getPageContext in
  match success result, data result with
  | true, Some (DContext context) =>
      ret (JObj [("success", JBool true);
                 ("data", JObj [("url", JStr (url context));
                                ("title", JStr (title context));
                                ("elements",
                                  JArr (formatElement <$> elements context))])])
  | _, _ => ret (json_of_result result)
  end.

Definition handleExtractCandidates : M JSON :=
  let! result := extractCandidates in
  ret (json_of_result result).

Definition handleTaskComplete (args : JSON) : M JSON :=
  modify (set_taskComplete true) ;;
  let! candidates := prop "candidates" args in
  let! summary := prop "summary" args in
  modify (set_taskResult (Some {| tr_success := true;
                                  candidates := candidates;
                                  summary := summary |})) ;;
  ret (JObj [("success", JBool true); ("message", JStr "Task marked as complete")]).

Definition handleAskUser (args : JSON) : M JSON :=
  prop "question" args ;;
  let! answer := await_question in
  ret (JObj [("success", JBool true); ("answer", JStr answer)]).

Definition approved : JSON :=
  JObj [("success", JBool true); ("confirmed", JBool true);
        ("message", JStr "User approved. You may proceed with the action.")].

Definition rejected : JSON :=
  JObj [("success", JBool false); ("confirmed", JBool false);
        ("message",
          JStr "User rejected. Do not proceed. Consider alternative approaches.")].

Definition handleRequestConfirmation (args : JSON) : M JSON :=
  prop "action" args ;;
  prop "reason" args ;;
  prop "impact" args ;;
  let! response := await_question in
  let confirmed := bool_decide (toLowerCase (trim response) = "yes") in
  if confirmed then ret approved else ret rejected.

Definition handleScanProfileDeep (args : JSON) : M JSON :=
  try_catch
    (let! profileUrl := prop "profileUrl" args in
     let! username := prop "username" args in
     let! scanResult := scanProfile (as_string profileUrl) (as_string username) in
     ret (JObj [("success", JBool true);
                ("data", JObj ([("socialLinks", socialLinks scanResult);
                                ("tldrSummary", tldrSummary scanResult)]
                               ++ match additionalData scanResult with
                                  | Some d => [("additionalData", d)]
                                  | None => []
                                  end))]))
    (fun error =>
       ret (JObj [("success", JBool false);
                  ("error", JStr ("Sub-agent scan failed: " +:+ error))])).

(** The [switch] of [executeTool]. *)
Definition dispatch (name : string) (args : JSON) : M JSON :=
  if decide (name = "navigate") then handleNavigate args
  else if decide (name = "click") then handleClick args
  else if decide (name = "type_text") then handleTypeText args
  else if decide (name = "scroll") then handleScroll args
  else if decide (name = "get_page_context") then handleGetPageContext
  else if decide (name = "extract_candidates") then handleExtractCandidates
  else if decide (name = "task_complete") then handleTaskComplete args
  else if decide (name = "ask_user") then handleAskUser args
  else if decide (name = "request_confirmation") then handleRequestConfirmation args
  else if decide (name = "scan_profile_deep") then handleScanProfileDeep args
  else ret (JObj [("error", JStr ("Unknown tool: " +:+ name))]).

Definition executeTool (toolCall : ToolCall) : M unit :=
  let name := tc_name toolCall in
  let args := default (JObj []) (tc_args toolCall) in
  let! result :=
    try_catch (dispatch name args)
      (fun error =>
         ret (JObj [("error", JStr ("Tool execution failed: " +:+ error))])) in
  push (ToolMessage (tc_id toolCall) result).

Definition executeStep : M unit :=
  let! msgs := gets messages in
  let! message := try_catch (await_chat "o3-mini" msgs) (fun error => throw error) in
  push (Assistant message) ;;
  forEach (tool_calls message) executeTool.

Definition errorNotice (error : Err) : string :=
  "System error occurred: " +:+ error +:+ ". " +:+ newline +:+ newline
  +:+ "Please analyze why this error happened and what it tells you about the current situation. Then decide on the best alternative approach. Don't just retry - think about what went wrong and how to avoid it.".

(** The body of the [while] loop of [runTask]. *)
Definition agentIteration : M unit :=
  try_catch executeStep (fun error => push (UserMessage (errorNotice error))).

(** [while (!this.taskComplete && iteration < MAX_ITERATIONS)]:
    [remaining] is the ceiling less [iteration]; the value is
    [iteration] when the loop is left. *)
Fixpoint agentLoop (remaining iteration : nat) : M nat :=
  match remaining with
  | O => ret iteration
  | S remaining =>
      let! complete := gets taskComplete in
      if complete then ret iteration
      else agentIteration ;; agentLoop remaining (S iteration)
  end.

Definition budgetExhausted : TaskResult :=
  {| tr_success := false;
     candidates := Some (JArr []);
     summary := Some (JStr ("Task did not complete within "
                            +:+ pretty MAX_ITERATIONS +:+ " iterations.")) |}.

(** [runTask], paired with the value of [iteration] at its end. *)
Definition runTaskCounting (task : string) : M (TaskResult * nat) :=
  modify (set_taskComplete false) ;;
  modify (set_taskResult None) ;;
  modify (set_messages [ SystemMessage SYSTEM_PROMPT;
                         UserMessage (formatTaskPrompt task) ]) ;;
  let! iteration := agentLoop MAX_ITERATIONS 0 in
  let! result := gets taskResult in
  match result with
  | None => ret (budgetExhausted, iteration)
  | Some result => ret (result, iteration)
  end.


End Coordinator.

(** ** The conversation protocol *)

(** What a conversation still owes after one more entry: [Some ids] when
    the entries so far respect the protocol and the invocations [ids] of
    the last proposal are not answered yet, [None] once it is broken.  A
    tool result must answer the first invocation owed; nothing else may
    come while results are owed. *)
Definition owes (pending : option (list string)) (msg : Message) : option (list string) :=
  match pending, msg with
  | Some (id :: rest), ToolMessage id' _ =>
      if decide (id' = id) then Some rest else None
  | Some [], Assistant a => Some (tc_id <$> tool_calls a)
  | Some [], SystemMessage _ => Some []
  | Some [], UserMessage _ => Some []
  | _, _ => None
  end.

(** Every proposal is followed at once by exactly one result per
    invocation, in order and under the invocation's identifier. *)
Definition wellFormed (conversation : list Message) : Prop :=
  foldl owes (Some []) conversation = Some [].

(** ** Frames *)

(** A computation that leaves the observation [f] of the machine as it
    found it, whatever it returns or throws. *)
Definition preserves `{Env} {A B} (f : Machine -> B) (c : M A) : Prop :=
  forall m, f (exec c m) = f m.

(** The machine right after the constructors and [initialize()]. *)
Definition fresh `{Env} (p : Page) (h : Human) (o : Oracle) : Machine :=
  {| page := p; human := h; oracle := o;
     elementMap := ∅; retryCount := ∅;
     messages := []; taskComplete := false; taskResult := None;
     scanMessages := []; scanComplete := false; scanResult := None |}.

(** ** Failing strategies *)

(** The primary strategy of [click] throws on the machine [m]. *)
Definition primaryFails `{Env} (selector : string) (m : Machine) : Prop :=
  exists e, outcome (clickPrimary selector) m = inl e.

(** The primary strategy throws on [m] and the forced click throws on
    the page the primary strategy left. *)
Definition bothFail `{Env} (selector : string) (m : Machine) : Prop :=
  primaryFails selector m
  /\ exists e, outcome (clickForced selector) (exec (clickPrimary selector) m) = inl e.


(** ** Scripted collaborators

    A concrete environment to run the agents on: the page keeps the log
    of the operations asked of it (newest first), shows the document
    [documentAfter n] after [n] navigations, and throws where [throws]
    says; the inference service answers its [n]-th request with
    [reply model n]; the human gives [answer] to every question. *)

Record Script := {
  throws : PageOp -> option Err;
  documentAfter : nat -> list Node;
  reply : string -> nat -> Err + AssistantMessage;
  answer : Err + string;
}.

Definition isGoto (op : PageOp) : bool :=
  match op with Goto _ _ => true | _ => false end.

Definition navigations (log : list PageOp) : nat :=
  length (filter (fun op => isGoto op = true) log).

Definition scripted (s : Script) : Env :=
  {| Page := list PageOp;
     Human := nat;
     Oracle := nat;
     page_do := fun op log => (throws s op, op :: log);
     page_url := fun _ => "about:blank";
     page_title := fun log => (inr "", log);
     page_document := fun log => (inr (documentAfter s (navigations log)), log);
     page_extract := fun _ log => (inr (JObj []), log);
     page_textSummary := fun log => (inr "", log);
     chat_create := fun model _ n => (reply s model n, S n);
     rl_question := fun n => (answer s, S n) |}.

Definition boot (s : Script) : @Machine (scripted s) :=
  @fresh (scripted s) [] 0%nat 0%nat.

(** ** Sample documents *)

Definition plainElem (tag : string) : DomElem :=
  {| tagName_lc := tag; className := Some ""; isBody := false;
     sameTagSiblings := 1; siblingIndex := 0 |}.

Definition bodyElem : DomElem :=
  {| tagName_lc := "body"; className := Some ""; isBody := true;
     sameTagSiblings := 1; siblingIndex := 0 |}.

(** A visible anchor, child of the body, with the given text. *)
Definition anchor (href text : string) : Node :=
  {| self := plainElem "a"; ancestors := [bodyElem; plainElem "html"];
     node_id := ""; attributes := [("href", href)]; textContent := text;
     isVisible := true; placeholder := ""; name := ""; type := "" |}.

(** A visible anchor that carries an id. *)
Definition anchorWithId (id href text : string) : Node :=
  {| self := plainElem "a"; ancestors := [bodyElem; plainElem "html"];
     node_id := id; attributes := [("href", href)]; textContent := text;
     isVisible := true; placeholder := ""; name := ""; type := "" |}.



(** ** Sample scripts *)

(** Every page operation times out; the inference service is down. *)
Definition unresponsive : Script :=
  {| throws := fun _ => Some "Timeout";
     documentAfter := fun _ => [];
     reply := fun _ _ => inl "offline";
     answer := inr "no" |}.

(** The machine of [unresponsive] once a snapshot bound [btn_1]. *)
Definition stuck : @Machine (scripted unresponsive) :=
  @set_elementMap (scripted unresponsive) {[ "btn_1" := "#go" ]} (boot unresponsive).

(** A model that only ever talks: text, and no tool invocation. *)
Definition talkative : Script :=
  {| throws := fun _ => None;
     documentAfter := fun _ => [];
     reply := fun _ _ => inr {| content := Some "thinking"; tool_calls := [] |};
     answer := inr "no" |}.

(** A scanner model that ends its scan with its first proposal. *)
Definition completeScanCall : ToolCall :=
  {| tc_id := "call_1"; tc_name := "complete_scan";
     tc_args := Some (JObj [("socialLinks",
                              JObj [("github", JStr "https://github.com/alice")]);
                            ("tldrSummary", JStr "Go developer.")]) |}.

Definition decisive : Script :=
  {| throws := fun _ => None;
     documentAfter := fun _ => [];
     reply := fun _ _ => inr {| content := None; tool_calls := [completeScanCall] |};
     answer := inr "no" |}.

(** A site whose first page shows one link and whose later pages show
    another one; every operation succeeds. *)
Definition twoPages : Script :=
  {| throws := fun _ => None;
     documentAfter := fun n =>
       match n with
       | O => [anchorWithId "old" "/a" "Old"]
       | S _ => [anchorWithId "new" "/b" "New"]
       end;
     reply := fun _ _ => inl "offline";
     answer := inr "no" |}.


(** ** Postconditions *)

(** Whenever [c] returns, what it returns satisfies [P]. *)
Definition returns `{Env} {A} (P : A -> Prop) (c : M A) : Prop :=
  forall m, match outcome c m with inr a => P a | inl _ => True end.

(** [c] returns on every machine: it does not throw. *)
Definition neverThrows `{Env} {A} (c : M A) : Prop :=
  forall m, exists a, outcome c m = inr a.

(** An envelope carries its data exactly when it reports success and
    its error text exactly when it reports failure. *)
Definition envelope (r : ToolResult) : Prop :=
  (success r = true /\ is_Some (data r) /\ error r = None)
  \/ (success r = false /\ data r = None /\ is_Some (error r)).

(** The result text of a tool the dispatcher does not know. *)
Definition unknownTool (name : string) : JSON :=
  JObj [("error", JStr ("Unknown tool: " +:+ name))].

(** A result object whose first field is a boolean [success]. *)
Definition reportsSuccess (j : JSON) : Prop :=
  match j with
  | JObj (("success", JBool _) :: _) => True
  | _ => False
  end.

(** ** The tool surface ([src/agent/tools.ts]) *)

(** A function schema, down to its name, the names of its properties
    and the required ones. *)
Record ToolSchema := {
  schema_name : string;
  schema_properties : list string;
  schema_required : list string;
}.


(** [getSubAgentTools()] of the profile scanner. *)
Definition getSubAgentTools : list ToolSchema :=
  [ {| schema_name := "get_page_context"; schema_properties := [];
       schema_required := [] |};
    {| schema_name := "click"; schema_properties := ["ref"];
       schema_required := ["ref"] |};
    {| schema_name := "scroll"; schema_properties := ["direction"];
       schema_required := ["direction"] |};
    {| schema_name := "extract_profile_data"; schema_properties := [];
       schema_required := [] |};
    {| schema_name := "complete_scan";
       schema_properties := ["socialLinks"; "tldrSummary"; "additionalData"];
       schema_required := ["socialLinks"; "tldrSummary"] |} ].

(** ** Named pieces of the controller's strategies *)

Section Strategies.
Context `{Env}.
Import JsString.

(** The URL [navigate] asks the page for. *)
Definition requestedUrl (url : string) : string :=
  if negb (startsWith "http://" url) && negb (startsWith "https://" url)
  then "https://" +:+ url else url.

(** The three strategies of [typeText], each up to the point where the
    counter would be cleared. *)
Definition typePrimary (selector text : string) (pressEnter : bool) : M unit :=
  await_page (ScrollIntoViewIfNeeded selector (Some 5000%N)) ;;
  await_page (WaitForTimeout 300) ;;
  await_page (Click selector false 1 (Some 5000%N)) ;;
  await_page (WaitForTimeout 500) ;;
  await_page (Click selector false 3 None) ;;
  await_page (WaitForTimeout 200) ;;
  await_page (KeyboardPress "Delete") ;;
  await_page (WaitForTimeout 200) ;;
  await_page (KeyboardType text 80) ;;
  await_page (WaitForTimeout 300) ;;
  pressEnterAndWait pressEnter 2000.

Definition typeFill (selector text : string) (pressEnter : bool) : M unit :=
  await_page (ScrollIntoViewIfNeeded selector None) ;;
  await_page (Fill selector text) ;;
  await_page (WaitForTimeout 300) ;;
  pressEnterAndWait pressEnter 1500.

Definition typeSequentially (selector text : string) (pressEnter : bool) : M unit :=
  await_page (Click selector false 1 None) ;;
  await_page (WaitForTimeout 200) ;;
  await_page (PressSequentially selector text 100) ;;
  pressEnterAndWait pressEnter 1500.

End Strategies.

(** The pass of the scan that yields entries of a type. *)
Definition pass (t : ElementType) : nat :=
  match t with
  | link => 0
  | button => 1
  | input | textarea => 2
  | select => 3
  end.

(** The page throws [e] at the [goto] of [navigate url]. *)
Definition gotoThrows `{Env} (url : string) (e : Err) (m : Machine) : Prop :=
  exists p, page_do (Goto (requestedUrl url) 20000) (page m) = (Some e, p).

(** [c] reads and writes the page only: the retry counters pass
    through it. *)
Definition pageBound `{Env} {A} (c : M A) : Prop :=
  forall r m, c (set_retryCount r m) = (fst (c m), set_retryCount r (snd (c m))).

(** A field that takes no keystroke: it cannot be scrolled to in time,
    filled, or typed into key by key, each for its own reason. *)
Definition readOnlyField : Script :=
  {| throws := fun op =>
       match op with
       | ScrollIntoViewIfNeeded _ (Some _) => Some "not visible"
       | Fill _ _ => Some "not editable"
       | PressSequentially _ _ _ => Some "detached"
       | _ => None
       end;
     documentAfter := fun _ => [];
     reply := fun _ _ => inl "offline";
     answer := inr "no" |}.

(** The machine of [readOnlyField] once a snapshot bound [input_1]. *)
Definition unfilled : @Machine (scripted readOnlyField) :=
  @set_elementMap (scripted readOnlyField) {[ "input_1" := "#q" ]} (boot readOnlyField).

(** ** Nodes the scan reads *)

(** A node some pass of the scan can push an entry for: it is visible
    and matches one of the four selector lists. *)
Definition contributes (el : Node) : bool :=
  isVisible el
  && (Extractor.matchesLink el || Extractor.matchesButton el
      || Extractor.matchesInput el || Extractor.matchesSelect el).

(** The rank of the entry at index [i] among the entries of its type:
    one more than the number of earlier entries of that type. *)
Definition rank (els : list PageElement) (i : nat) (e : PageElement) : nat :=
  S (length (filter (fun e' => el_type e' = el_type e) (take i els))).

(** An anchor six levels below a section of the given class. *)
Definition deepLink (section : string) : Node :=
  {| self := plainElem "a";
     ancestors := [plainElem "span"; plainElem "li"; plainElem "ul";
                   plainElem "div"; plainElem "main";
                   {| tagName_lc := "section"; className := Some section;
                      isBody := false; sameTagSiblings := 2; siblingIndex := 0 |};
                   bodyElem; plainElem "html"];
     node_id := ""; attributes := [("href", "/more")]; textContent := "More";
     isVisible := true; placeholder := ""; name := ""; type := "" |}.

(** A visible search box. *)
Definition searchBox : Node :=
  {| self := plainElem "input"; ancestors := [bodyElem; plainElem "html"];
     node_id := "q"; attributes := [("type", "text")]; textContent := "";
     isVisible := true; placeholder := "Search"; name := "q"; type := "text" |}.

(** A directory page: 150 links with distinct texts, then the search
    box. *)
Definition directory : list Node :=
  ((fun n => anchor ("/u/" +:+ pretty n) ("user " +:+ pretty n)) <$> seq 0 150)
  ++ [searchBox].

(** ** Outcomes of the two agents *)

(** The result [handleTaskComplete] stores: the two properties of the
    arguments, as they are. *)
Definition completion (args : JSON) : TaskResult :=
  {| tr_success := true;
     candidates := jfield "candidates" args;
     summary := jfield "summary" args |}.


(** A model whose first proposal ends the task with [null] for
    arguments. *)
Definition hasty : Script :=
  {| throws := fun _ => None;
     documentAfter := fun _ => [];
     reply := fun _ _ =>
       inr {| content := None;
              tool_calls := [ {| tc_id := "call_1"; tc_name := "task_complete";
                                 tc_args := Some JNull |} ] |};
     answer := inr "no" |}.


(** ** The command line ([src/index.ts]) *)

(** [s.slice(n)] *)
Fixpoint sliceFrom (n : nat) (s : string) : string :=
  match n, s with
  | S n', String _ s' => sliceFrom n' s'
  | _, _ => s
  end.

(** What the main loop does with a line: [continue], [shutdown()], the
    help text, or [runTask(task)]. *)
Inductive Command := Skip | Shutdown | Help | Task (task : string).

Definition parseInput (input : string) : Command :=
  let trimmed := JsString.trim input in
  if decide (trimmed = "") then Skip
  else
    let lowerInput := JsString.toLowerCase trimmed in
    if decide (lowerInput = "exit" \/ lowerInput = "quit") then Shutdown
    else if decide (lowerInput = "help") then Help
    else Task (if JsString.startsWith "search " trimmed
               then sliceFrom 7 trimmed else trimmed).

(** The last code unit of a string. *)
Fixpoint lastChar (s : string) : option ascii :=
  match s with
  | "" => None
  | String c "" => Some c
  | String _ s' => lastChar s'
  end.

(** * Facts about the page-context compressor *)

Module JsStringFacts.
Import JsString.

Lemma slice0_length n s : String.length (slice0 n s) = Nat.min n (String.length s).
Proof.
  revert s; induction n as [|n IH]; intros [|c s]; simpl; auto.
Qed.


End JsStringFacts.

Section ExtractorFacts.


Lemma dedup_fresh seen raw r :
  r ∈ Extractor.dedup seen raw -> Extractor.dedupKey r ∉ seen.
Proof.
  revert seen; induction raw as [|el rest IH]; intros seen; simpl.
  - intros Hin. inversion Hin.
  - destruct (decide (Extractor.dedupKey el ∈ seen)) as [Hs|Hs].
    + apply IH.
    + intros [->|Hin]%elem_of_cons; [assumption|].
      apply IH in Hin. set_solver.
Qed.


(** What [dedup] keeps is the first entry of the scan with its key. *)
Lemma dedup_first seen raw r :
  r ∈ Extractor.dedup seen raw ->
  exists k, raw !! k = Some r /\
    forall k' r', k' < k -> raw !! k' = Some r' ->
                  Extractor.dedupKey r' <> Extractor.dedupKey r.
Proof.
  revert seen; induction raw as [|el rest IH]; intros seen; simpl.
  - intros Hin. inversion Hin.
  - destruct (decide (Extractor.dedupKey el ∈ seen)) as [Hs|Hs].
    + intros Hin. pose proof (dedup_fresh _ _ _ Hin) as Hfresh.
      destruct (IH _ Hin) as (k & Hk & Hfirst).
      exists (S k). split; [exact Hk|].
      intros [|k'] r' Hlt Hr'; simpl in Hr'.
      * injection Hr' as <-. congruence.
      * apply (Hfirst k'); [lia|exact Hr'].
    + intros [->|Hin]%elem_of_cons.
      * exists 0. split; [reflexivity|]. intros k' r' Hlt. lia.
      * pose proof (dedup_fresh _ _ _ Hin) as Hfresh.
        destruct (IH _ Hin) as (k & Hk & Hfirst).
        exists (S k). split; [exact Hk|].
        intros [|k'] r' Hlt Hr'; simpl in Hr'.
        -- injection Hr' as <-. set_solver.
        -- apply (Hfirst k'); [lia|exact Hr'].
Qed.


(** The first entry of the scan with its key survives [dedup]. *)
Lemma dedup_keeps seen raw k r :
  raw !! k = Some r ->
  Extractor.dedupKey r ∉ seen ->
  (forall k' r', k' < k -> raw !! k' = Some r' ->
                 Extractor.dedupKey r' <> Extractor.dedupKey r) ->
  r ∈ Extractor.dedup seen raw.
Proof.
  revert seen k; induction raw as [|el rest IH]; intros seen [|k]; simpl;
    try discriminate.
  - intros [= ->] Hfresh _. case_decide; [contradiction|left].
  - intros Hk Hfresh Hfirst.
    assert (Extractor.dedupKey el <> Extractor.dedupKey r) as Hel
      by (apply (Hfirst 0 el); [lia|reflexivity]).
    assert (forall k' r', k' < k -> rest !! k' = Some r' ->
                          Extractor.dedupKey r' <> Extractor.dedupKey r) as Hrest
      by (intros k' r' Hlt Hr'; apply (Hfirst (S k') r'); [lia|exact Hr']).
    case_decide.
    + apply (IH seen k); assumption.
    + right. apply (IH _ k); [assumption|set_solver|assumption].
Qed.


Lemma assignRefs_lookup counters raw i e :
  Extractor.assignRefs counters raw !! i = Some e ->
  exists r, raw !! i = Some r /\ el_type e = raw_type r /\ text e = raw_text r
            /\ selector e = raw_selector r /\ href e = raw_href r.
Proof.
  revert counters i; induction raw as [|el rest IH]; intros counters [|i]; simpl;
    try discriminate.
  - intros [= <-]. exists el. simpl. auto.
  - apply IH.
Qed.

Lemma assignRefs_length counters raw :
  length (Extractor.assignRefs counters raw) = length raw.
Proof.
  revert counters; induction raw as [|el rest IH]; intros counters; simpl; auto.
Qed.



(** Refs: a prefix and a number fix the type and the number. *)
Lemma ref_inj t1 t2 (x y : string) :
  Extractor.prefix t1 +:+ "_" +:+ x = Extractor.prefix t2 +:+ "_" +:+ y ->
  t1 = t2 /\ x = y.
Proof.
  destruct t1, t2; cbv [Extractor.prefix type_name String.append];
    intros Heq; try discriminate Heq; injection Heq as ->; auto.
Qed.

Lemma assignRefs_ref counters raw e :
  e ∈ Extractor.assignRefs counters raw ->
  exists n, ref e = Extractor.prefix (el_type e) +:+ "_" +:+ pretty n
            /\ counters (el_type e) < n.
Proof.
  revert counters; induction raw as [|el rest IH]; intros counters; simpl.
  - intros Hin. inversion Hin.
  - intros [->|Hin]%elem_of_cons.
    + exists (counters (raw_type el) + 1). simpl. split; [reflexivity|]. lia.
    + destruct (IH _ Hin) as (n & Href & Hlt). exists n. split; [exact Href|].
      case_decide as Heq; [rewrite Heq|]; lia.
Qed.

Lemma assignRefs_NoDup counters raw :
  NoDup (ref <$> Extractor.assignRefs counters raw).
Proof.
  revert counters; induction raw as [|el rest IH]; intros counters; simpl.
  - constructor.
  - constructor; [|apply IH].
    intros (e & Href & Hin)%list_elem_of_fmap. simpl in Href.
    destruct (assignRefs_ref _ _ _ Hin) as (n & Hn & Hlt).
    rewrite Hn in Href. apply ref_inj in Href as [Ht Hp].
    apply (inj pretty) in Hp. rewrite <- Ht in Hlt.
    case_decide; [lia|congruence].
Qed.

End ExtractorFacts.


(** C9.  In every snapshot the refs are pairwise distinct: each is the
    prefix of its entry's type, an underscore and a counter that starts
    at 1, and the five types have five distinct prefixes. *)
Theorem refs_pairwise_distinct (document : list Node) :
NoDup (ref <$> Extractor.pageElements document)
/\ (forall e, e ∈ Extractor.pageElements document ->
      exists n, 1 <= n /\ ref e = Extractor.prefix (el_type e) +:+ "_" +:+ pretty n)
/\ (forall t1 t2, Extractor.prefix t1 = Extractor.prefix t2 -> t1 = t2).
Proof.
repeat split.
- apply assignRefs_NoDup.
- intros e Hin. apply assignRefs_ref in Hin as (n & Hn & Hlt). exists n. split; [lia|exact Hn].
- intros [] []; cbv; congruence.
Qed.

Section TextFacts.
Import JsString.

Lemma forEachMatch_elem sel body document r :
  r ∈ Extractor.forEachMatch sel body document ->
  exists el, el ∈ document /\ r ∈ body el.
Proof.
  induction document as [|el rest IH]; simpl.
  - intros Hin. inversion Hin.
  - intros [Hin|Hin]%elem_of_app.
    + exists el. split; [left|]. destruct (sel el); [exact Hin|inversion Hin].
    + destruct (IH Hin) as (el' & Hel & Hr). exists el'. split; [right; exact Hel|exact Hr].
Qed.



Lemma pageElements_raw document e :
  e ∈ Extractor.pageElements document ->
  exists r, r ∈ Extractor.scanDocument document
            /\ el_type e = raw_type r /\ text e = raw_text r
            /\ selector e = raw_selector r /\ href e = raw_href r.
Proof.
  intros (i & Hi)%list_elem_of_lookup.
  apply assignRefs_lookup in Hi as (r & Hr & Hfields).
  apply lookup_take_Some in Hr as [Hr _].
  assert (r ∈ Extractor.dedup ∅ (Extractor.scanDocument document)) as Hin
    by (apply list_elem_of_lookup; eauto).
  destruct (dedup_first _ _ _ Hin) as (k & Hk & _).
  exists r. split; [apply list_elem_of_lookup; eauto|exact Hfields].
Qed.

End TextFacts.






(** The key of the filter is a rendering of the signature, and the
    rendering is not injective: a colon in a text or an href moves the
    boundary.  Two links with different signatures and one key collapse
    to the first of them. *)
Example colliding_keys_collapse :
  let first := anchor "c" "a:b" in
  let second := anchor "b:c" "a" in
  Extractor.raw_signature <$> Extractor.scanDocument [first; second]
  = [(link, "a:b", Some "c"); (link, "a", Some "b:c")]
  /\ Extractor.dedupKey <$> Extractor.scanDocument [first; second]
     = ["link:a:b:c"; "link:a:b:c"]
  /\ Extractor.signature <$> Extractor.pageElements [first; second]
     = [(link, "a:b", Some "c")].
Proof. repeat split; vm_compute; reflexivity. Qed.
(** * Frame rules *)
Section FrameRules.
Context `{Env} {B : Type} (f : Machine -> B).

Lemma preserves_ret {A} (a : A) : preserves f (ret a).
Proof. intros m. reflexivity. Qed.

Lemma preserves_throw {A} (e : Err) : preserves f (@throw _ A e).
Proof. intros m. reflexivity. Qed.

Lemma preserves_gets {A} (g : Machine -> A) : preserves f (gets g).
Proof. intros m. reflexivity. Qed.

Lemma preserves_bind {A C} (c : M A) (k : A -> M C) :
  preserves f c -> (forall a, preserves f (k a)) -> preserves f (bind c k).
Proof.
  intros Hc Hk m. unfold exec, bind. specialize (Hc m). unfold exec in Hc.
  destruct (c m) as [[e|a] m']; simpl in *; [exact Hc|].
  rewrite <- Hc. apply Hk.
Qed.

Lemma preserves_try_catch {A} (body : M A) (handler : Err -> M A) :
  preserves f body -> (forall e, preserves f (handler e)) ->
  preserves f (try_catch body handler).
Proof.
  intros Hc Hk m. unfold exec, try_catch. specialize (Hc m). unfold exec in Hc.
  destruct (body m) as [[e|a] m']; simpl in *; [|exact Hc].
  rewrite <- Hc. apply Hk.
Qed.

Lemma preserves_modify (g : Machine -> Machine) :
  (forall m, f (g m) = f m) -> preserves f (modify g).
Proof. intros Hg m. apply Hg. Qed.

Lemma preserves_await_page (op : PageOp) :
  (forall p m, f (set_page p m) = f m) -> preserves f (await_page op).
Proof.
  intros Hp m. unfold exec, await_page.
  destruct (page_do op (page m)) as [[e|] p]; apply Hp.
Qed.

Lemma preserves_on_page {A} (g : Page -> (Err + A) * Page) :
  (forall p m, f (set_page p m) = f m) -> preserves f (on_page g).
Proof.
  intros Hp m. unfold exec, on_page. destruct (g (page m)) as [r p]. apply Hp.
Qed.

Lemma preserves_await_chat model msgs :
  (forall o m, f (set_oracle o m) = f m) -> preserves f (await_chat model msgs).
Proof.
  intros Ho m. unfold exec, await_chat.
  destruct (chat_create model msgs (oracle m)) as [r o]. apply Ho.
Qed.

Lemma preserves_await_question :
  (forall h m, f (set_human h m) = f m) -> preserves f await_question.
Proof.
  intros Hh m. unfold exec, await_question.
  destruct (rl_question (human m)) as [r h]. apply Hh.
Qed.

Lemma preserves_forEach {A} (xs : list A) (body : A -> M unit) :
  (forall x, preserves f (body x)) -> preserves f (forEach xs body).
Proof.
  intros Hbody. induction xs as [|x xs IH]; simpl.
  - apply preserves_ret.
  - apply preserves_bind; [apply Hbody|intros _; exact IH].
Qed.

Lemma preserves_scanLoop remaining iteration :
  preserves f scanIteration -> preserves f (scanLoop remaining iteration).
Proof.
  intros Hit. revert iteration. induction remaining as [|r IH]; intros iteration; simpl.
  - apply preserves_ret.
  - apply preserves_bind; [apply preserves_gets|]. intros [|]; [apply preserves_ret|].
    apply preserves_bind; [exact Hit|]. intros [|]; [apply IH|apply preserves_ret].
Qed.

End FrameRules.

Ltac head_of t := lazymatch t with ?g _ => head_of g | _ => t end.

(** One step of a frame proof: split the computation along its
    structure, close the primitive cases, and open a call otherwise. *)
Ltac frame_step :=
  lazymatch goal with
  | |- preserves _ (bind _ _) => apply preserves_bind; [|intros ?]
  | |- preserves _ (try_catch _ _) => apply preserves_try_catch; [|intros ?]
  | |- preserves _ (ret _) => apply preserves_ret
  | |- preserves _ (throw _) => apply preserves_throw
  | |- preserves _ (gets _) => apply preserves_gets
  | |- preserves _ (modify _) => apply preserves_modify; intros ?; reflexivity
  | |- preserves _ (await_page _) => apply preserves_await_page; intros ? ?; reflexivity
  | |- preserves _ (on_page _) => apply preserves_on_page; intros ? ?; reflexivity
  | |- preserves _ (await_chat _ _) => apply preserves_await_chat; intros ? ?; reflexivity
  | |- preserves _ await_question => apply preserves_await_question; intros ? ?; reflexivity
  | |- preserves _ (forEach _ _) => apply preserves_forEach; intros ?
  | |- preserves _ (scanLoop _ _) => apply preserves_scanLoop
  | |- preserves _ (if ?b then _ else _) => destruct b
  | |- preserves _ (match ?x with _ => _ end) => destruct x
  | |- preserves _ ?c => let h := head_of c in unfold h
  end.

Ltac frame := repeat frame_step.

Section BrowserFrames.
Context `{Env}.

Lemma click_preserves_elementMap ref : preserves elementMap (click ref).
Proof. frame. Qed.

Lemma dispatch_preserves_messages name args : preserves messages (dispatch name args).
Proof. frame. Qed.


Lemma executeSubAgentTool_preserves_scanMessages toolCall :
  preserves scanMessages (executeSubAgentTool toolCall).
Proof. frame. Qed.

End BrowserFrames.

(** * The retry ceiling *)
Section Retry.
Context `{Env}.

Lemma clickPrimary_preserves_retryCount selector : preserves retryCount (clickPrimary selector).
Proof. frame. Qed.

Lemma clickPrimary_preserves_elementMap selector : preserves elementMap (clickPrimary selector).
Proof. frame. Qed.

(** A page operation looks at the page only. *)
Lemma clickForced_set_retryCount selector x m :
  clickForced selector (set_retryCount x m)
  = (fst (clickForced selector m), set_retryCount x (snd (clickForced selector m))).
Proof.
  unfold clickForced, await_page. simpl.
  destruct (page_do _ (page m)) as [[e|] p]; reflexivity.
Qed.

Lemma clickForced_preserves_retryCount selector : preserves retryCount (clickForced selector).
Proof. frame. Qed.

(** A call under the ceiling whose two strategies fail. *)
Lemma click_retry ref selector m :
  elementMap m !! ref = Some selector -> selector <> "" ->
  bothFail selector m ->
  default 0 (retryCount m !! getRetryKey "click" [ref]) < 3 ->
  exists e m',
    click ref m = (inr (failed ("Click failed: " +:+ e
                                +:+ ". Try scrolling or refreshing page context.")), m')
    /\ retryCount m'
       = <[getRetryKey "click" [ref] :=
             default 0 (retryCount m !! getRetryKey "click" [ref]) + 1]> (retryCount m).
Proof.
  intros Hsel Hne [[e He] [e' He']] Hlt.
  pose proof (clickPrimary_preserves_retryCount selector m) as Hrc.
  unfold outcome, exec in *. unfold click, bind, gets. rewrite Hsel.
  destruct (decide (selector = "")) as [|_]; [contradiction|].
  unfold clickSelector, try_catch at 1, bind at 1.
  destruct (clickPrimary selector m) as [r mp]. simpl in He, He', Hrc. subst r.
  pose proof (clickForced_preserves_retryCount selector mp) as Hrf. unfold exec in Hrf.
  unfold bind at 1, checkRetryLimit, bind at 1, gets. rewrite Hrc.
  destruct (3 <=? _)%nat eqn:Hle; [apply Nat.leb_le in Hle; lia|].
  unfold bind, modify, ret, try_catch. simpl.
  rewrite clickForced_set_retryCount.
  destruct (clickForced selector mp) as [r mf]. simpl in He', Hrf. subst r. simpl.
  eexists _, _. split; [reflexivity|]. simpl. rewrite Hrc. reflexivity.
Qed.

(** A call at the ceiling whose primary strategy fails. *)
Lemma click_exhausted ref selector m :
  elementMap m !! ref = Some selector -> selector <> "" ->
  primaryFails selector m ->
  3 <= default 0 (retryCount m !! getRetryKey "click" [ref]) ->
  exists e m',
    click ref m = (inr (failed ("Click failed after retries: " +:+ e)), m')
    /\ retryCount m' = delete (getRetryKey "click" [ref]) (retryCount m).
Proof.
  intros Hsel Hne [e He] Hge.
  pose proof (clickPrimary_preserves_retryCount selector m) as Hrc.
  unfold outcome, exec in *. unfold click, bind, gets. rewrite Hsel.
  destruct (decide (selector = "")) as [|_]; [contradiction|].
  unfold clickSelector, try_catch at 1, bind at 1.
  destruct (clickPrimary selector m) as [r mp]. simpl in He, Hrc. subst r.
  unfold bind at 1, checkRetryLimit, bind at 1, gets. rewrite Hrc.
  destruct (3 <=? _)%nat eqn:Hle; [|apply Nat.leb_gt in Hle; lia].
  unfold bind, modify, ret. simpl.
  eexists _, _. split; [reflexivity|]. simpl. rewrite Hrc. reflexivity.
Qed.

(** A call that succeeds leaves no counter. *)
Lemma click_success_clears ref m r :
  outcome (click ref) m = inr r -> success r = true ->
  retryCount (exec (click ref) m) !! getRetryKey "click" [ref] = None.
Proof.
  unfold outcome, exec. destruct (click ref m) as [o m'] eqn:Hclick. simpl.
  intros -> Hok. revert Hclick.
  unfold click, bind, gets.
  destruct (elementMap m !! ref) as [selector|];
    [|intros [= <- <-]; discriminate Hok].
  destruct (decide (selector = "")); [intros [= <- <-]; discriminate Hok|].
  unfold clickSelector, try_catch at 1, bind at 1.
  destruct (clickPrimary selector m) as [[e|[]] mp].
  - unfold bind at 1, checkRetryLimit, bind at 1, gets.
    destruct (3 <=? _)%nat; unfold bind, modify, ret, try_catch; simpl;
      [intros [= <- <-]; discriminate Hok|].
    rewrite clickForced_set_retryCount.
    destruct (clickForced selector mp) as [[e'|[]] mf]; simpl.
    + intros [= <- <-]; discriminate Hok.
    + intros [= <- <-]. apply lookup_delete_eq.
  - unfold bind, clearRetry, modify, ret. simpl. intros [= <- <-]. apply lookup_delete_eq.
Qed.

(** [checkRetryLimit] alone, for any key: three grants, then a refusal
    that forgets the key. *)
Lemma checkRetryLimit_cycle key m :
  retryCount m !! key = None ->
  let m1 := exec (checkRetryLimit key) m in
  let m2 := exec (checkRetryLimit key) m1 in
  let m3 := exec (checkRetryLimit key) m2 in
  let m4 := exec (checkRetryLimit key) m3 in
  outcome (checkRetryLimit key) m = inr true /\ retryCount m1 !! key = Some 1
  /\ outcome (checkRetryLimit key) m1 = inr true /\ retryCount m2 !! key = Some 2
  /\ outcome (checkRetryLimit key) m2 = inr true /\ retryCount m3 !! key = Some 3
  /\ outcome (checkRetryLimit key) m3 = inr false /\ retryCount m4 !! key = None.
Proof.
  intros Hfresh. unfold outcome, exec, checkRetryLimit, bind, gets, modify, ret.
  simpl. rewrite Hfresh. simpl. rewrite !lookup_insert_eq. simpl.
  rewrite !lookup_insert_eq. simpl. rewrite !lookup_insert_eq. simpl.
  rewrite lookup_delete_eq. auto 10.
Qed.

End Retry.

(** C1, amended.  From a fresh key, three consecutive calls whose primary
    and fallback strategies both fail each return the non-terminal
    failure and leave the counter at 1, 2 and 3; the next call whose
    primary strategy fails, the 4th, returns the terminal failure
    ('failed after retries') and deletes the counter, so the call after
    it starts a fresh cycle.  A call that succeeds deletes the counter.
    The same cycle holds of [checkRetryLimit] for every action key. *)
Theorem click_retry_ceiling `{Env} (ref selector : string) (m0 : Machine) :
  let key := getRetryKey "click" [ref] in
  let m1 := exec (click ref) m0 in
  let m2 := exec (click ref) m1 in
  let m3 := exec (click ref) m2 in
  let m4 := exec (click ref) m3 in
  elementMap m0 !! ref = Some selector -> selector <> "" ->
  retryCount m0 !! key = None ->
  bothFail selector m0 -> bothFail selector m1 -> bothFail selector m2 ->
  primaryFails selector m3 ->
  (exists e, outcome (click ref) m0
             = inr (failed ("Click failed: " +:+ e
                            +:+ ". Try scrolling or refreshing page context.")))
  /\ retryCount m1 !! key = Some 1
  /\ (exists e, outcome (click ref) m1
                = inr (failed ("Click failed: " +:+ e
                               +:+ ". Try scrolling or refreshing page context.")))
  /\ retryCount m2 !! key = Some 2
  /\ (exists e, outcome (click ref) m2
                = inr (failed ("Click failed: " +:+ e
                               +:+ ". Try scrolling or refreshing page context.")))
  /\ retryCount m3 !! key = Some 3
  /\ (exists e, outcome (click ref) m3
                = inr (failed ("Click failed after retries: " +:+ e)))
  /\ retryCount m4 !! key = None
  /\ (forall m r, outcome (click ref) m = inr r -> success r = true ->
                  retryCount (exec (click ref) m) !! key = None)
  /\ (forall k m, retryCount m !! k = None ->
        outcome (checkRetryLimit k) m = inr true
        /\ outcome (checkRetryLimit k) (exec (checkRetryLimit k) m) = inr true
        /\ outcome (checkRetryLimit k)
             (exec (checkRetryLimit k) (exec (checkRetryLimit k) m)) = inr true
        /\ outcome (checkRetryLimit k)
             (exec (checkRetryLimit k)
                (exec (checkRetryLimit k) (exec (checkRetryLimit k) m))) = inr false
        /\ retryCount (exec (checkRetryLimit k)
             (exec (checkRetryLimit k)
                (exec (checkRetryLimit k) (exec (checkRetryLimit k) m)))) !! k = None).
Proof.
  intros key m1 m2 m3 m4 Hsel Hne Hfresh Hf0 Hf1 Hf2 Hf3.
  assert (forall m, elementMap (exec (click ref) m) = elementMap m) as Hmap
    by apply click_preserves_elementMap.
  assert (elementMap m1 !! ref = Some selector) as Hsel1 by (unfold m1; rewrite Hmap; exact Hsel).
  assert (elementMap m2 !! ref = Some selector) as Hsel2 by (unfold m2; rewrite Hmap; exact Hsel1).
  assert (elementMap m3 !! ref = Some selector) as Hsel3 by (unfold m3; rewrite Hmap; exact Hsel2).
  destruct (click_retry ref selector m0 Hsel Hne Hf0) as (e1 & n1 & Ho1 & Hr1);
    [fold key; rewrite Hfresh; simpl; lia|].
  assert (m1 = n1) as <- by (unfold m1, exec; rewrite Ho1; reflexivity).
  fold key in Hr1. rewrite Hfresh in Hr1. simpl in Hr1.
  assert (retryCount m1 !! key = Some 1) as Hc1 by (rewrite Hr1; apply lookup_insert_eq).
  destruct (click_retry ref selector m1 Hsel1 Hne Hf1) as (e2 & n2 & Ho2 & Hr2);
    [fold key; rewrite Hc1; simpl; lia|].
  assert (m2 = n2) as <- by (unfold m2, exec; rewrite Ho2; reflexivity).
  fold key in Hr2. rewrite Hc1 in Hr2. simpl in Hr2.
  assert (retryCount m2 !! key = Some 2) as Hc2 by (rewrite Hr2; apply lookup_insert_eq).
  destruct (click_retry ref selector m2 Hsel2 Hne Hf2) as (e3 & n3 & Ho3 & Hr3);
    [fold key; rewrite Hc2; simpl; lia|].
  assert (m3 = n3) as <- by (unfold m3, exec; rewrite Ho3; reflexivity).
  fold key in Hr3. rewrite Hc2 in Hr3. simpl in Hr3.
  assert (retryCount m3 !! key = Some 3) as Hc3 by (rewrite Hr3; apply lookup_insert_eq).
  destruct (click_exhausted ref selector m3 Hsel3 Hne Hf3) as (e4 & n4 & Ho4 & Hr4);
    [fold key; rewrite Hc3; simpl; lia|].
  assert (m4 = n4) as <- by (unfold m4, exec; rewrite Ho4; reflexivity).
  fold key in Hr4.
  split; [exists e1; unfold outcome; rewrite Ho1; reflexivity|].
  split; [exact Hc1|].
  split; [exists e2; unfold outcome; rewrite Ho2; reflexivity|].
  split; [exact Hc2|].
  split; [exists e3; unfold outcome; rewrite Ho3; reflexivity|].
  split; [exact Hc3|].
  split; [exists e4; unfold outcome; rewrite Ho4; reflexivity|].
  split; [rewrite Hr4; apply lookup_delete_eq|].
  split; [intros m r; apply click_success_clears|].
  intros k m Hk. pose proof (checkRetryLimit_cycle k m Hk) as Hcycle.
  cbv zeta in Hcycle. tauto.
Qed.

Lemma click_retry_ceiling_witness :
  let key := getRetryKey "click" ["btn_1"] in
  let m1 := exec (click "btn_1") stuck in
  let m2 := exec (click "btn_1") m1 in
  let m3 := exec (click "btn_1") m2 in
  let m4 := exec (click "btn_1") m3 in
  elementMap stuck !! "btn_1" = Some "#go"
  /\ retryCount stuck !! key = None
  /\ bothFail "#go" stuck /\ bothFail "#go" m1 /\ bothFail "#go" m2
  /\ primaryFails "#go" m3
  /\ retryCount m3 !! key = Some 3
  /\ retryCount m4 !! key = None.
Proof.
  intros key m1 m2 m3 m4.
  assert (elementMap stuck !! "btn_1" = Some "#go") as Hsel by reflexivity.
  assert (retryCount stuck !! key = None) as Hfresh by reflexivity.
  assert (forall m : @Machine (scripted unresponsive), bothFail "#go" m) as Hboth.
  { intros m. split; [exists "Timeout"; reflexivity|exists "Timeout"; reflexivity]. }
  assert (primaryFails "#go" m3) as Hprimary by (exists "Timeout"; reflexivity).
  assert ("#go" <> "") as Hne by discriminate.
  destruct (@click_retry_ceiling (scripted unresponsive) "btn_1" "#go" stuck
              Hsel Hne Hfresh (Hboth _) (Hboth _) (Hboth _) Hprimary)
    as (_ & _ & _ & _ & _ & Hthree & _ & Hnone & _).
  repeat split; auto.
Defined.

(** C1, as stated, fails: with every strategy failing, the 3rd call from
    a fresh key returns the non-terminal failure and leaves the counter
    at 3; it is the 4th call that returns the terminal failure. *)
Lemma third_failure_is_not_terminal :
  let key := getRetryKey "click" ["btn_1"] in
  let m2 := exec (click "btn_1") (exec (click "btn_1") stuck) in
  let m3 := exec (click "btn_1") m2 in
  retryCount stuck !! key = None
  /\ bothFail "#go" stuck /\ bothFail "#go" (exec (click "btn_1") stuck)
  /\ bothFail "#go" m2
  /\ outcome (click "btn_1") m2
     = inr (failed "Click failed: Timeout. Try scrolling or refreshing page context.")
  /\ outcome (click "btn_1") m2 <> inr (failed "Click failed after retries: Timeout")
  /\ retryCount m3 !! key = Some 3
  /\ outcome (click "btn_1") m3 = inr (failed "Click failed after retries: Timeout").
Proof.
  intros key m2 m3.
  assert (forall m : @Machine (scripted unresponsive), bothFail "#go" m) as Hboth.
  { intros m. split; [exists "Timeout"; reflexivity|exists "Timeout"; reflexivity]. }
  split; [reflexivity|]. do 3 (split; [apply Hboth|]).
  split; [vm_compute; reflexivity|].
  split; [vm_compute; discriminate|].
  split; vm_compute; reflexivity.
Qed.

(** * Reference resolution *)

Section Resolution.
Context `{Env}.



(** What a successful [getPageContext] returns and leaves. *)
Lemma getPageContext_success m r :
  outcome getPageContext m = inr r -> success r = true ->
  exists document u t,
    data r = Some (DContext {| url := u; title := t;
                               elements := Extractor.pageElements document |})
    /\ elementMap (exec getPageContext m)
       = refreshElementMap (Extractor.pageElements document).
Proof.
  unfold outcome, exec. destruct (getPageContext m) as [o m'] eqn:Hrun. simpl.
  intros -> Hok. revert Hrun.
  unfold getPageContext, try_catch, bind at 1, await_page.
  destruct (page_do _ (page m)) as [[e|] p];
    [unfold ret; intros [= <- <-]; discriminate Hok|].
  unfold extractPageContext, bind, gets, on_page, modify, ret. simpl.
  destruct (page_title p) as [[e|t] p1];
    [intros Heq; inversion Heq; subst; simpl in Hok; discriminate Hok|].
  simpl.
  destruct (page_document p1) as [[e|document] p2];
    [intros Heq; inversion Heq; subst; simpl in Hok; discriminate Hok|].
  intros Heq; inversion Heq; subst. simpl. eauto.
Qed.



End Resolution.



Section Unversioned.
Context `{Env}.




End Unversioned.




(** * The confirmation gate *)

(** C8.  When the human answers the confirmation question with
    [response], the handler returns the approval exactly when
    [response], trimmed and lower-cased, is the word yes, and the
    rejection (success false, confirmed false) otherwise; it changes
    nothing but the human's channel, so the page, the element map and
    the retry state are as before; and the loop, executing the
    invocation, does no more than append that result to the
    conversation. *)
Theorem confirmation_gate `{Env} (args : JSON) (m : Machine) (response : string)
    (h' : Human) :
  args <> JNull ->
  rl_question (human m) = (inr response, h') ->
  let confirmed :=
    bool_decide (JsString.toLowerCase (JsString.trim response) = "yes") in
  let verdict := if confirmed then approved else rejected in
  handleRequestConfirmation args m = (inr verdict, set_human h' m)
  /\ (confirmed = false ->
        jfield "confirmed" verdict = Some (JBool false)
        /\ jfield "success" verdict = Some (JBool false))
  /\ (confirmed = true -> jfield "confirmed" verdict = Some (JBool true))
  /\ page (exec (handleRequestConfirmation args) m) = page m
  /\ elementMap (exec (handleRequestConfirmation args) m) = elementMap m
  /\ retryCount (exec (handleRequestConfirmation args) m) = retryCount m
  /\ (forall id,
        executeTool {| tc_id := id; tc_name := "request_confirmation";
                       tc_args := Some args |} m
        = (inr tt,
           set_messages (messages m ++ [ToolMessage id verdict]) (set_human h' m))).
Proof.
  intros Hargs Hreply confirmed verdict.
  assert (handleRequestConfirmation args m = (inr verdict, set_human h' m)) as Hrun.
  { unfold handleRequestConfirmation, bind, prop, await_question.
    destruct args; try contradiction; unfold ret; rewrite Hreply;
      unfold verdict, confirmed; case_bool_decide; reflexivity. }
  split; [exact Hrun|].
  split; [intros Hno; unfold verdict; rewrite Hno; split; reflexivity|].
  split; [intros Hyes; unfold verdict; rewrite Hyes; reflexivity|].
  unfold exec. rewrite Hrun. simpl.
  do 3 (split; [reflexivity|]).
  intros id. unfold executeTool, bind, try_catch, dispatch. simpl.
  rewrite Hrun. reflexivity.
Qed.

Lemma confirmation_gate_witness :
  let m := boot talkative in
  JObj [] <> JNull
  /\ handleRequestConfirmation (JObj []) m = (inr rejected, @set_human (scripted talkative) 1 m)
  /\ page (exec (handleRequestConfirmation (JObj [])) m) = page m.
Proof.
  intros m.
  assert (JObj [] <> JNull) as Hargs by discriminate.
  assert (@rl_question (scripted talkative) (human m) = (inr "no", 1)) as Hreply
    by reflexivity.
  destruct (@confirmation_gate (scripted talkative) (JObj []) m "no" 1 Hargs Hreply)
    as (Hrun & _ & _ & Hpage & _).
  split; [exact Hargs|]. split; [exact Hrun|exact Hpage].
Defined.

(** * The source URL of a scan *)

(** C6.  The code at its failing input: a scan that the model ends with
    [complete_scan] returns a successful result whose [profileUrl] is
    the empty string, not the URL that was scanned, because
    [completeScan] writes [''] into the field, for every input; the
    fallback after an exhausted budget and the navigation failure both
    return the URL. *)
Theorem complete_scan_drops_the_source_url :
  let scanned := "https://github.com/alice" in
  (exists r, outcome (scanProfile scanned "alice") (boot decisive) = inr r
             /\ psr_success r = true /\ profileUrl r = "" /\ profileUrl r <> scanned)
  /\ (forall (E : Env) links tldr extra (m : @Machine E),
        exists r, scanResult (exec (completeScan links tldr extra) m) = Some r
                  /\ profileUrl r = "")
  /\ (exists r, outcome (scanProfile scanned "alice") (boot talkative) = inr r
                /\ psr_success r = true /\ profileUrl r = scanned)
  /\ (exists r, outcome (scanProfile scanned "alice") (boot unresponsive) = inr r
                /\ psr_success r = false /\ profileUrl r = scanned).
Proof.
  intros scanned.
  split.
  { eexists. split; [vm_compute; reflexivity|].
    simpl. repeat split; [discriminate]. }
  split.
  { intros E links tldr extra m. eexists. split; reflexivity. }
  split; eexists; (split; [vm_compute; reflexivity|]); simpl; auto.
Qed.

(** * The agent loops *)

Section Loops.
Context `{Env}.

(** [executeTool] catches whatever its handler throws. *)
Lemma executeTool_run toolCall m :
  exists result m1,
    try_catch (dispatch (tc_name toolCall) (default (JObj []) (tc_args toolCall)))
      (fun error => ret (JObj [("error", JStr ("Tool execution failed: " +:+ error))])) m
    = (inr result, m1)
    /\ executeTool toolCall m
       = (inr tt, set_messages (messages m1 ++ [ToolMessage (tc_id toolCall) result])%list m1).
Proof.
  unfold executeTool, bind, try_catch.
  destruct (dispatch _ _ m) as [[e|result] m1]; simpl; eauto.
Qed.

Lemma executeTool_total toolCall m : outcome (executeTool toolCall) m = inr tt.
Proof.
  destruct (executeTool_run toolCall m) as (result & m1 & _ & Hrun).
  unfold outcome. rewrite Hrun. reflexivity.
Qed.

Lemma executeTool_messages toolCall m :
  exists result,
    messages (exec (executeTool toolCall) m)
    = (messages m ++ [ToolMessage (tc_id toolCall) result])%list.
Proof.
  destruct (executeTool_run toolCall m) as (result & m1 & Hcatch & Hrun).
  exists result. unfold exec. rewrite Hrun. simpl. f_equal.
  assert (preserves messages
            (try_catch (dispatch (tc_name toolCall)
                          (default (JObj []) (tc_args toolCall)))
               (fun error =>
                  ret (JObj [("error", JStr ("Tool execution failed: " +:+ error))]))))
    as Hframe by (apply preserves_try_catch; [apply dispatch_preserves_messages|intros; frame]).
  specialize (Hframe m). unfold exec in Hframe. rewrite Hcatch in Hframe. exact Hframe.
Qed.


(** The tool results of one proposal, in the order of its invocations. *)
Lemma forEach_executeTool toolCalls m :
  outcome (forEach toolCalls executeTool) m = inr tt
  /\ exists results,
       length results = length toolCalls
       /\ messages (exec (forEach toolCalls executeTool) m)
          = (messages m ++ zip_with ToolMessage (tc_id <$> toolCalls) results)%list.
Proof.
  revert m; induction toolCalls as [|toolCall rest IH]; intros m.
  - split; [reflexivity|]. exists []. split; [reflexivity|].
    simpl. rewrite app_nil_r. reflexivity.
  - pose proof (executeTool_total toolCall m) as Htotal.
    destruct (executeTool_messages toolCall m) as (result & Hmsg).
    unfold outcome, exec in *. simpl. unfold bind.
    destruct (executeTool toolCall m) as [o m1]. simpl in Htotal, Hmsg. subst o.
    destruct (IH m1) as (Hrest & results & Hlen & Hmsgs).
    split; [exact Hrest|].
    exists (result :: results). split; [simpl; congruence|].
    rewrite Hmsgs, Hmsg, <- app_assoc. reflexivity.
Qed.


(** One pass of the primary loop, by what the inference service said. *)
Lemma agentIteration_error m e o' :
  chat_create "o3-mini" (messages m) (oracle m) = (inl e, o') ->
  agentIteration m
  = (inr tt, set_messages (messages m ++ [UserMessage (errorNotice e)]) (set_oracle o' m)).
Proof.
  intros Hchat.
  unfold agentIteration, executeStep, try_catch, bind, gets, await_chat, throw.
  rewrite Hchat. reflexivity.
Qed.

Lemma agentIteration_reply m message o' :
  chat_create "o3-mini" (messages m) (oracle m) = (inr message, o') ->
  agentIteration m
  = (inr tt,
     exec (forEach (tool_calls message) executeTool)
       (set_messages (messages m ++ [Assistant message]) (set_oracle o' m))).
Proof.
  intros Hchat.
  unfold agentIteration, executeStep, try_catch at 1, bind, gets, await_chat.
  unfold try_catch. rewrite Hchat. unfold push, modify. simpl.
  pose proof (proj1 (forEach_executeTool (tool_calls message)
    (set_messages (messages m ++ [Assistant message]) (set_oracle o' m)))) as Htotal.
  unfold outcome, exec in *.
  destruct (forEach _ _ _) as [o m1]. simpl in Htotal. subst o. reflexivity.
Qed.

Lemma agentIteration_total m : outcome agentIteration m = inr tt.
Proof.
  destruct (chat_create "o3-mini" (messages m) (oracle m)) as [[e|message] o'] eqn:Hchat.
  - unfold outcome. rewrite (agentIteration_error _ _ _ Hchat). reflexivity.
  - unfold outcome. rewrite (agentIteration_reply _ _ _ Hchat). reflexivity.
Qed.

(** Each pass adds one to the iteration counter. *)
Lemma agentLoop_step remaining iteration m :
  taskComplete m = false ->
  agentLoop (S remaining) iteration m
  = agentLoop remaining (S iteration) (exec agentIteration m).
Proof.
  intros Hc. simpl. unfold bind at 1, gets. rewrite Hc. unfold bind.
  pose proof (agentIteration_total m) as Htotal. unfold outcome, exec in *.
  destruct (agentIteration m) as [o m1]. simpl in Htotal. subst o. reflexivity.
Qed.




(** [runTaskCounting] around its loop. *)
Lemma runTaskCounting_unfold task m :
  runTaskCounting task m
  = match agentLoop MAX_ITERATIONS 0
            (set_messages [ SystemMessage SYSTEM_PROMPT;
                            UserMessage (formatTaskPrompt task) ]
               (set_taskResult None (set_taskComplete false m))) with
    | (inr iteration, m1) =>
        (inr (match taskResult m1 with
              | None => budgetExhausted
              | Some result => result
              end, iteration), m1)
    | (inl e, m1) => (inl e, m1)
    end.
Proof.
  unfold runTaskCounting, bind, modify, gets, ret.
  destruct (agentLoop _ _ _) as [[e|n] m1]; [reflexivity|].
  destruct (taskResult m1); reflexivity.
Qed.


End Loops.



(** * The conversation *)

Section Protocol.

(** Results that answer the invocations owed, in order, pay them off. *)
Lemma owes_results (ids : list string) (results : list JSON) (rest : list string) :
  length results = length ids ->
  foldl owes (Some (ids ++ rest)%list) (zip_with ToolMessage ids results) = Some rest.
Proof.
  revert results; induction ids as [|id ids IH]; intros [|result results]; simpl;
    try discriminate; [reflexivity|].
  intros [= Hlen]. case_decide; [|congruence]. apply IH. exact Hlen.
Qed.

Lemma wellFormed_turn conversation message results :
  wellFormed conversation ->
  length results = length (tool_calls message) ->
  wellFormed (conversation ++ Assistant message
                :: zip_with ToolMessage (tc_id <$> tool_calls message) results)%list.
Proof.
  unfold wellFormed. intros Hwf Hlen. rewrite foldl_app, Hwf. simpl.
  rewrite <- (app_nil_r (tc_id <$> tool_calls message)) at 1.
  apply owes_results. rewrite length_fmap. exact Hlen.
Qed.

Lemma wellFormed_user conversation text :
  wellFormed conversation -> wellFormed (conversation ++ [UserMessage text])%list.
Proof. unfold wellFormed. intros Hwf. rewrite foldl_app, Hwf. reflexivity. Qed.

End Protocol.

Section Conversations.
Context `{Env}.

Lemma agentIteration_turn m message o' :
  chat_create "o3-mini" (messages m) (oracle m) = (inr message, o') ->
  exists results,
    length results = length (tool_calls message)
    /\ messages (exec agentIteration m)
       = (messages m ++ Assistant message
            :: zip_with ToolMessage (tc_id <$> tool_calls message) results)%list.
Proof.
  intros Hchat. unfold exec at 1. rewrite (agentIteration_reply _ _ _ Hchat). simpl.
  destruct (proj2 (forEach_executeTool (tool_calls message)
    (set_messages (messages m ++ [Assistant message])%list (set_oracle o' m))))
    as (results & Hlen & Hmsgs).
  exists results. split; [exact Hlen|]. rewrite Hmsgs. simpl.
  rewrite <- app_assoc. reflexivity.
Qed.

Lemma agentIteration_appends m :
  messages m `prefix_of` messages (exec agentIteration m).
Proof.
  destruct (chat_create "o3-mini" (messages m) (oracle m)) as [[e|message] o'] eqn:Hchat.
  - unfold exec. rewrite (agentIteration_error _ _ _ Hchat). simpl. eexists. reflexivity.
  - destruct (agentIteration_turn _ _ _ Hchat) as (results & _ & ->). eexists. reflexivity.
Qed.

Lemma agentIteration_wellFormed m :
  wellFormed (messages m) -> wellFormed (messages (exec agentIteration m)).
Proof.
  intros Hwf.
  destruct (chat_create "o3-mini" (messages m) (oracle m)) as [[e|message] o'] eqn:Hchat.
  - unfold exec. rewrite (agentIteration_error _ _ _ Hchat). simpl.
    apply wellFormed_user. exact Hwf.
  - destruct (agentIteration_turn _ _ _ Hchat) as (results & Hlen & ->).
    apply wellFormed_turn; assumption.
Qed.

(** One invocation of the scanner: it throws before anything is
    appended, or appends its one result. *)
Lemma answerToolCall_run toolCall m :
  (exists e m1, answerToolCall toolCall m = (inl e, m1)
                /\ scanMessages m1 = scanMessages m)
  \/ (exists result m1, answerToolCall toolCall m = (inr tt, m1)
        /\ scanMessages m1
           = (scanMessages m ++ [ToolMessage (tc_id toolCall) result])%list).
Proof.
  pose proof (executeSubAgentTool_preserves_scanMessages toolCall m) as Hframe.
  unfold answerToolCall, bind, exec in *.
  destruct (executeSubAgentTool toolCall m) as [[e|result] m1]; simpl in Hframe.
  - left. eauto.
  - right. exists result. eexists. split; [reflexivity|]. simpl. congruence.
Qed.

Lemma forEach_answerToolCall toolCalls m :
  scanMessages m `prefix_of` scanMessages (exec (forEach toolCalls answerToolCall) m)
  /\ (outcome (forEach toolCalls answerToolCall) m = inr tt ->
      exists results,
        length results = length toolCalls
        /\ scanMessages (exec (forEach toolCalls answerToolCall) m)
           = (scanMessages m ++ zip_with ToolMessage (tc_id <$> toolCalls) results)%list).
Proof.
  revert m; induction toolCalls as [|toolCall rest IH]; intros m.
  - split; [reflexivity|]. intros _. exists []. split; [reflexivity|].
    simpl. rewrite app_nil_r. reflexivity.
  - unfold outcome, exec. simpl. unfold bind.
    destruct (answerToolCall_run toolCall m)
      as [(e & m1 & -> & Hmsg)|(result & m1 & -> & Hmsg)]; simpl.
    + split; [rewrite Hmsg; reflexivity|discriminate].
    + destruct (IH m1) as (Hprefix & Hall). unfold outcome, exec in *. split.
      * etransitivity; [|exact Hprefix]. rewrite Hmsg. eexists. reflexivity.
      * intros Hok. destruct (Hall Hok) as (results & Hlen & Hmsgs).
        exists (result :: results). split; [simpl; congruence|].
        rewrite Hmsgs, Hmsg, <- app_assoc. reflexivity.
Qed.

(** One pass of the scanner's loop after a reply of the inference
    service, as a pair. *)
Lemma scanIteration_reply m message o' :
  chat_create "gpt-4o-mini" (scanMessages m) (oracle m) = (inr message, o') ->
  scanIteration m
  = match tool_calls message with
    | _ :: _ =>
        let m1 := set_scanMessages (scanMessages m ++ [Assistant message])%list
                    (set_oracle o' m) in
        match forEach (tool_calls message) answerToolCall m1 with
        | (inr _, m2) => (inr true, m2)
        | (inl _, m2) => (inr false, m2)
        end
    | [] =>
        if decide (JsString.nul (content message) = "")
        then (inr true, set_oracle o' m)
        else (inr true,
              set_scanMessages (scanMessages m ++ [Assistant message])%list
                (set_oracle o' m))
    end.
Proof.
  intros Hchat.
  unfold scanIteration, try_catch at 1, bind at 1, gets, bind at 1,
    executeSubAgentStep, try_catch, await_chat.
  rewrite Hchat. simpl.
  destruct (tool_calls message) as [|toolCall rest].
  - destruct (decide _); reflexivity.
  - unfold bind at 1, pushScan, modify. unfold bind at 1.
    destruct (forEach (toolCall :: rest) answerToolCall _) as [[e|[]] m2]; reflexivity.
Qed.

Lemma scanIteration_error m e o' :
  chat_create "gpt-4o-mini" (scanMessages m) (oracle m) = (inl e, o') ->
  scanIteration m = (inr false, set_oracle o' m).
Proof.
  intros Hchat.
  unfold scanIteration, try_catch at 1, bind at 1, gets, bind at 1,
    executeSubAgentStep, try_catch, await_chat, throw.
  rewrite Hchat. reflexivity.
Qed.

Lemma scanIteration_turn m message o' :
  chat_create "gpt-4o-mini" (scanMessages m) (oracle m) = (inr message, o') ->
  outcome scanIteration m = inr true ->
  tool_calls message <> [] ->
  exists results,
    length results = length (tool_calls message)
    /\ scanMessages (exec scanIteration m)
       = (scanMessages m ++ Assistant message
            :: zip_with ToolMessage (tc_id <$> tool_calls message) results)%list.
Proof.
  intros Hchat. unfold outcome, exec. rewrite (scanIteration_reply _ _ _ Hchat).
  destruct (tool_calls message) as [|toolCall rest] eqn:Hcalls; [contradiction|].
  intros Hok _. cbv zeta in *.
  pose proof (forEach_answerToolCall (toolCall :: rest)
    (set_scanMessages (scanMessages m ++ [Assistant message])%list (set_oracle o' m)))
    as (_ & Hall).
  unfold outcome, exec in Hall.
  destruct (forEach (toolCall :: rest) answerToolCall _) as [[e|[]] m2];
    [discriminate Hok|].
  destruct (Hall eq_refl) as (results & Hlen & Hmsgs).
  exists results. split; [exact Hlen|]. simpl in *. rewrite Hmsgs, <- app_assoc.
  reflexivity.
Qed.

Lemma scanIteration_talk m message o' :
  chat_create "gpt-4o-mini" (scanMessages m) (oracle m) = (inr message, o') ->
  tool_calls message = [] ->
  outcome scanIteration m = inr true
  /\ scanMessages (exec scanIteration m)
     = (scanMessages m ++ if decide (JsString.nul (content message) = "")
                          then [] else [Assistant message])%list.
Proof.
  intros Hchat Hcalls. unfold outcome, exec. rewrite (scanIteration_reply _ _ _ Hchat).
  rewrite Hcalls. destruct (decide _); simpl; [rewrite app_nil_r|]; auto.
Qed.

Lemma scanIteration_appends m :
  scanMessages m `prefix_of` scanMessages (exec scanIteration m).
Proof.
  destruct (chat_create "gpt-4o-mini" (scanMessages m) (oracle m))
    as [[e|message] o'] eqn:Hchat.
  - unfold exec. rewrite (scanIteration_error _ _ _ Hchat). reflexivity.
  - unfold exec. rewrite (scanIteration_reply _ _ _ Hchat).
    destruct (tool_calls message) as [|toolCall rest].
    + destruct (decide _); simpl; [reflexivity|eexists; reflexivity].
    + cbv zeta.
      pose proof (forEach_answerToolCall (toolCall :: rest)
        (set_scanMessages (scanMessages m ++ [Assistant message])%list (set_oracle o' m)))
        as (Hprefix & _).
      unfold exec in Hprefix.
      destruct (forEach (toolCall :: rest) answerToolCall _) as [[e|[]] m2];
        simpl in *; (etransitivity; [|exact Hprefix]); eexists; reflexivity.
Qed.

Lemma scanIteration_wellFormed m :
  wellFormed (scanMessages m) -> outcome scanIteration m = inr true ->
  wellFormed (scanMessages (exec scanIteration m)).
Proof.
  intros Hwf Hok.
  destruct (chat_create "gpt-4o-mini" (scanMessages m) (oracle m))
    as [[e|message] o'] eqn:Hchat.
  - unfold outcome in Hok. rewrite (scanIteration_error _ _ _ Hchat) in Hok.
    discriminate Hok.
  - destruct (tool_calls message) as [|toolCall rest] eqn:Hcalls.
    + destruct (scanIteration_talk _ _ _ Hchat Hcalls) as (_ & ->).
      destruct (decide _); [rewrite app_nil_r; exact Hwf|].
      pose proof (wellFormed_turn (scanMessages m) message [] Hwf) as Hturn.
      rewrite Hcalls in Hturn. apply Hturn. reflexivity.
    + destruct (scanIteration_turn _ _ _ Hchat Hok) as (results & Hlen & ->);
        [rewrite Hcalls; discriminate|].
      apply wellFormed_turn; assumption.
Qed.

Lemma scanIteration_total m : exists continue, outcome scanIteration m = inr continue.
Proof.
  unfold outcome, scanIteration, try_catch at 1.
  match goal with |- context [match ?body m with _ => _ end] => destruct (body m) as [[e|b] m1] end;
    eexists; reflexivity.
Qed.

Lemma scanLoop_step remaining iteration m :
  scanComplete m = false ->
  scanLoop (S remaining) iteration m
  = if decide (outcome scanIteration m = inr true)
    then scanLoop remaining (S iteration) (exec scanIteration m)
    else (inr (S iteration), exec scanIteration m).
Proof.
  intros Hc. simpl. unfold bind at 1, gets. rewrite Hc. unfold bind.
  destruct (scanIteration_total m) as (continue & Htotal). unfold outcome, exec in *.
  destruct (scanIteration m) as [o m1]. simpl in *. subst o.
  destruct continue; case_decide; try reflexivity; congruence.
Qed.

End Conversations.

(** C7.  In both loops a pass that appends a proposal with N tool
    invocations appends right after it exactly N tool entries, one per
    invocation, in order and under the invocation's identifier, before
    the loop asks for the next proposal: the primary loop always, the
    scanner's loop whenever it goes on (a tool that throws there ends
    the loop, and no further proposal is requested).  A pass only
    appends to the conversation, and it keeps the conversation
    well-formed. *)
Theorem proposals_are_answered `{Env} :
  (forall m message o',
      chat_create "o3-mini" (messages m) (oracle m) = (inr message, o') ->
      exists results,
        length results = length (tool_calls message)
        /\ messages (exec agentIteration m)
           = (messages m ++ Assistant message
                :: zip_with ToolMessage (tc_id <$> tool_calls message) results)%list)
  /\ (forall m, messages m `prefix_of` messages (exec agentIteration m))
  /\ (forall m, wellFormed (messages m) -> wellFormed (messages (exec agentIteration m)))
  /\ (forall remaining iteration m,
        taskComplete m = false ->
        agentLoop (S remaining) iteration m
        = agentLoop remaining (S iteration) (exec agentIteration m))
  /\ (forall m message o',
        chat_create "gpt-4o-mini" (scanMessages m) (oracle m) = (inr message, o') ->
        outcome scanIteration m = inr true ->
        tool_calls message <> [] ->
        exists results,
          length results = length (tool_calls message)
          /\ scanMessages (exec scanIteration m)
             = (scanMessages m ++ Assistant message
                  :: zip_with ToolMessage (tc_id <$> tool_calls message) results)%list)
  /\ (forall m, scanMessages m `prefix_of` scanMessages (exec scanIteration m))
  /\ (forall m,
        wellFormed (scanMessages m) -> outcome scanIteration m = inr true ->
        wellFormed (scanMessages (exec scanIteration m)))
  /\ (forall remaining iteration m,
        scanComplete m = false ->
        scanLoop (S remaining) iteration m
        = if decide (outcome scanIteration m = inr true)
          then scanLoop remaining (S iteration) (exec scanIteration m)
          else (inr (S iteration), exec scanIteration m)).
Proof.
  split; [apply agentIteration_turn|].
  split; [apply agentIteration_appends|].
  split; [apply agentIteration_wellFormed|].
  split; [apply agentLoop_step|].
  split; [apply scanIteration_turn|].
  split; [apply scanIteration_appends|].
  split; [apply scanIteration_wellFormed|].
  apply scanLoop_step.
Qed.

(** * Envelopes and exceptions *)

Section PostRules.
Context `{Env}.

Lemma returns_ret {A} (P : A -> Prop) (a : A) : P a -> returns P (ret a).
Proof. intros Ha m. exact Ha. Qed.

Lemma returns_throw {A} (P : A -> Prop) (e : Err) : returns P (throw e).
Proof. intros m. exact I. Qed.

Lemma returns_bind {A B} (P : B -> Prop) (c : M A) (k : A -> M B) :
  (forall a, returns P (k a)) -> returns P (bind c k).
Proof.
  intros Hk m. unfold outcome, bind.
  destruct (c m) as [[e|a] m1]; [exact I|]. apply Hk.
Qed.

Lemma returns_try_catch {A} (P : A -> Prop) (body : M A) (handler : Err -> M A) :
  returns P body -> (forall e, returns P (handler e)) ->
  returns P (try_catch body handler).
Proof.
  intros Hbody Hh m. specialize (Hbody m). unfold outcome, try_catch in *.
  destruct (body m) as [[e|a] m1]; [apply Hh|exact Hbody].
Qed.

Lemma neverThrows_ret {A} (a : A) : neverThrows (ret a).
Proof. intros m. exists a. reflexivity. Qed.

Lemma neverThrows_gets {A} (g : Machine -> A) : neverThrows (gets g).
Proof. intros m. eexists. reflexivity. Qed.

Lemma neverThrows_modify (g : Machine -> Machine) : neverThrows (modify g).
Proof. intros m. eexists. reflexivity. Qed.

Lemma neverThrows_bind {A B} (c : M A) (k : A -> M B) :
  neverThrows c -> (forall a, neverThrows (k a)) -> neverThrows (bind c k).
Proof.
  intros Hc Hk m. destruct (Hc m) as (a & Ha). unfold outcome, bind in *.
  destruct (c m) as [o m1]. simpl in Ha. subst o. apply Hk.
Qed.

(** A [try] whose [catch] does not throw does not throw, whatever its
    body does. *)
Lemma neverThrows_try_catch {A} (body : M A) (handler : Err -> M A) :
  (forall e, neverThrows (handler e)) -> neverThrows (try_catch body handler).
Proof.
  intros Hh m. unfold outcome, try_catch.
  destruct (body m) as [[e|a] m1]; [apply Hh|eexists; reflexivity].
Qed.

Lemma neverThrows_forEach {A} (xs : list A) (body : A -> M unit) :
  (forall x, neverThrows (body x)) -> neverThrows (forEach xs body).
Proof.
  intros Hbody. induction xs as [|x xs IH]; simpl.
  - apply neverThrows_ret.
  - apply neverThrows_bind; [apply Hbody|intros _; exact IH].
Qed.

Lemma envelope_succeeded d : envelope (succeeded d).
Proof. left. simpl. eauto. Qed.

Lemma envelope_failed e : envelope (failed e).
Proof. right. simpl. eauto. Qed.

End PostRules.

(** One step of a proof that a computation does not throw. *)
Ltac total_step :=
  lazymatch goal with
  | |- neverThrows (try_catch _ _) => apply neverThrows_try_catch; intros ?
  | |- neverThrows (bind _ _) => apply neverThrows_bind; [|intros ?]
  | |- neverThrows (ret _) => apply neverThrows_ret
  | |- neverThrows (gets _) => apply neverThrows_gets
  | |- neverThrows (modify _) => apply neverThrows_modify
  | |- neverThrows (forEach _ _) => apply neverThrows_forEach; intros ?
  | |- neverThrows (if ?b then _ else _) => destruct b
  | |- neverThrows (match ?x with _ => _ end) => destruct x
  | |- neverThrows ?c => let h := head_of c in unfold h
  end.

Ltac total := repeat total_step.

(** One step of a proof of what a computation returns. *)
Ltac post_step :=
  lazymatch goal with
  | |- returns _ (try_catch _ _) => apply returns_try_catch; [|intros ?]
  | |- returns _ (bind _ _) => apply returns_bind; intros ?
  | |- returns _ (throw _) => apply returns_throw
  | |- returns envelope (ret (succeeded _)) => apply returns_ret, envelope_succeeded
  | |- returns envelope (ret (failed _)) => apply returns_ret, envelope_failed
  | |- returns envelope (ret (typed _ _ _)) => apply returns_ret, envelope_succeeded
  | |- returns reportsSuccess (ret _) => apply returns_ret; exact I
  | |- returns _ (if ?b then _ else _) => destruct b
  | |- returns _ (match ?x with _ => _ end) => destruct x
  | |- returns _ ?c => let h := head_of c in unfold h
  end.

Ltac post := repeat post_step.

Section ControllerEnvelope.
Context `{Env}.

Lemma navigate_total url : neverThrows (navigate url).
Proof. total. Qed.
Lemma click_total ref : neverThrows (click ref).
Proof. total. Qed.
Lemma typeText_total ref text pressEnter : neverThrows (typeText ref text pressEnter).
Proof. total. Qed.
Lemma scroll_total direction : neverThrows (scroll direction).
Proof. total. Qed.
Lemma extractCandidates_total : neverThrows extractCandidates.
Proof. total. Qed.
Lemma extractSocialLinks_total : neverThrows extractSocialLinks.
Proof. total. Qed.
Lemma extractProfileTabs_total : neverThrows extractProfileTabs.
Proof. total. Qed.
Lemma extractDetailedProfileInfo_total : neverThrows extractDetailedProfileInfo.
Proof. total. Qed.
Lemma getPageTextSummary_total : neverThrows getPageTextSummary.
Proof. total. Qed.
Lemma getPageContext_neverThrows : neverThrows getPageContext.
Proof. total. Qed.

Lemma navigate_envelope url : returns envelope (navigate url).
Proof. post. Qed.
Lemma click_envelope ref : returns envelope (click ref).
Proof. post. Qed.
Lemma typeText_envelope ref text pressEnter : returns envelope (typeText ref text pressEnter).
Proof. post. Qed.
Lemma scroll_envelope direction : returns envelope (scroll direction).
Proof. post. Qed.
Lemma getPageContext_envelope : returns envelope getPageContext.
Proof. post. Qed.
Lemma extractCandidates_envelope : returns envelope extractCandidates.
Proof. post. Qed.
Lemma extractSocialLinks_envelope : returns envelope extractSocialLinks.
Proof. post. Qed.
Lemma extractProfileTabs_envelope : returns envelope extractProfileTabs.
Proof. post. Qed.
Lemma extractDetailedProfileInfo_envelope : returns envelope extractDetailedProfileInfo.
Proof. post. Qed.
Lemma getPageTextSummary_envelope : returns envelope getPageTextSummary.
Proof. post. Qed.

End ControllerEnvelope.

(** Every operation of the initialised controller returns, whatever the
    page does:
    what the page throws is caught into the result.  The result carries
    data and no error text when it reports success, and an error text
    and no data when it reports failure. *)
Theorem controller_recovers_every_failure `{Env} :
  (forall url, neverThrows (navigate url) /\ returns envelope (navigate url))
  /\ (forall r, neverThrows (click r) /\ returns envelope (click r))
  /\ (forall r text pressEnter,
        neverThrows (typeText r text pressEnter)
        /\ returns envelope (typeText r text pressEnter))
  /\ (forall direction,
        neverThrows (scroll direction) /\ returns envelope (scroll direction))
  /\ (neverThrows getPageContext /\ returns envelope getPageContext)
  /\ (neverThrows extractCandidates /\ returns envelope extractCandidates)
  /\ (neverThrows extractSocialLinks /\ returns envelope extractSocialLinks)
  /\ (neverThrows extractProfileTabs /\ returns envelope extractProfileTabs)
  /\ (neverThrows extractDetailedProfileInfo
      /\ returns envelope extractDetailedProfileInfo)
  /\ (neverThrows getPageTextSummary /\ returns envelope getPageTextSummary).
Proof.
  repeat split; intros;
    auto using navigate_total, click_total, typeText_total, scroll_total,
      getPageContext_neverThrows, extractCandidates_total, extractSocialLinks_total,
      extractProfileTabs_total, extractDetailedProfileInfo_total,
      getPageTextSummary_total, navigate_envelope, click_envelope,
      typeText_envelope, scroll_envelope, getPageContext_envelope,
      extractCandidates_envelope, extractSocialLinks_envelope,
      extractProfileTabs_envelope, extractDetailedProfileInfo_envelope,
      getPageTextSummary_envelope.
Qed.

(** * Navigation, typing and scrolling *)

Section Sequencing.
Context `{Env}.

Lemma bind_throws {A B} (c : M A) (k : A -> M B) m e :
  outcome c m = inl e -> bind c k m = (inl e, exec c m).
Proof. unfold outcome, exec, bind. destruct (c m) as [[?|?] ?]; simpl; congruence. Qed.

Lemma bind_returns {A B} (c : M A) (k : A -> M B) m a :
  outcome c m = inr a -> bind c k m = k a (exec c m).
Proof. unfold outcome, exec, bind. destruct (c m) as [[?|?] ?]; simpl; congruence. Qed.

Lemma try_catch_ext {A} (c c' : M A) (h h' : Err -> M A) m :
  (forall m, c m = c' m) -> (forall e m, h e m = h' e m) ->
  try_catch c h m = try_catch c' h' m.
Proof.
  intros Hc Hh. unfold try_catch. rewrite Hc.
  destruct (c' m) as [[?|?] ?]; [apply Hh|reflexivity].
Qed.

Lemma bind_assoc {A B C} (c : M A) (k : A -> M B) (h : B -> M C) m :
  bind (bind c k) h m = bind c (fun a => bind (k a) h) m.
Proof. unfold bind. destruct (c m) as [[?|?] ?]; reflexivity. Qed.

Lemma bind_ext {A B} (c : M A) (k k' : A -> M B) m :
  (forall a m, k a m = k' a m) -> bind c k m = bind c k' m.
Proof. intros Hk. unfold bind. destruct (c m) as [[?|?] ?]; [reflexivity|apply Hk]. Qed.

Lemma pageBound_ret {A} (a : A) : pageBound (ret a).
Proof. intros r m. reflexivity. Qed.

Lemma pageBound_await_page op : pageBound (await_page op).
Proof.
  intros r m. unfold await_page. simpl.
  destruct (page_do op (page m)) as [[?|] ?]; reflexivity.
Qed.

Lemma pageBound_bind {A B} (c : M A) (k : A -> M B) :
  pageBound c -> (forall a, pageBound (k a)) -> pageBound (bind c k).
Proof.
  intros Hc Hk r m. unfold bind. rewrite Hc.
  destruct (c m) as [[e|a] m']; simpl; [reflexivity|]. rewrite Hk.
  destruct (k a m') as [? ?]; reflexivity.
Qed.

Lemma pageBound_pressEnterAndWait pressEnter ms :
  pageBound (pressEnterAndWait pressEnter ms).
Proof.
  unfold pressEnterAndWait. destruct pressEnter.
  - apply pageBound_bind; [apply pageBound_await_page|intros; apply pageBound_await_page].
  - apply pageBound_ret.
Qed.

Lemma pageBound_outcome {A} (c : M A) r m :
  pageBound c -> outcome c (set_retryCount r m) = outcome c m.
Proof. intros Hc. unfold outcome. rewrite Hc. reflexivity. Qed.

Lemma pageBound_exec {A} (c : M A) r m :
  pageBound c -> exec c (set_retryCount r m) = set_retryCount r (exec c m).
Proof. intros Hc. unfold exec. rewrite Hc. reflexivity. Qed.

Lemma pageBound_retryCount {A} (c : M A) m :
  pageBound c -> retryCount (exec c m) = retryCount m.
Proof.
  intros Hc. unfold exec.
  replace m with (set_retryCount (retryCount m) m) at 1 by (destruct m; reflexivity).
  rewrite Hc. reflexivity.
Qed.

End Sequencing.

Ltac page_bound :=
  repeat first
    [ apply pageBound_await_page
    | apply pageBound_pressEnterAndWait
    | apply pageBound_ret
    | apply pageBound_bind; [|intros ?] ].

Section Navigation.
Context `{Env}.

(** A navigation whose [goto] throws: the answer depends on the counter
    of the URL as it was given. *)
Lemma navigate_failed url e m :
  gotoThrows url e m ->
  exists m',
    navigate url m
    = (inr (failed (if (3 <=? default 0 (retryCount m !! getRetryKey "navigate" [url]))%nat
                    then "Navigation failed after retries: " +:+ e
                    else "Navigation failed: " +:+ e +:+ ". Retrying...")), m')
    /\ retryCount m'
       = (if (3 <=? default 0 (retryCount m !! getRetryKey "navigate" [url]))%nat
          then delete (getRetryKey "navigate" [url]) (retryCount m)
          else <[getRetryKey "navigate" [url] :=
                   default 0 (retryCount m !! getRetryKey "navigate" [url]) + 1]>
                 (retryCount m))
    /\ elementMap m' = elementMap m.
Proof.
  intros (p & Hgoto).
  unfold navigate, try_catch, bind at 1, await_page. fold (requestedUrl url).
  rewrite Hgoto. unfold checkRetryLimit, bind, gets, modify, ret.
  cbn -[Nat.leb].
  destruct (3 <=? _)%nat; eexists; split; try reflexivity; split; reflexivity.
Qed.

Lemma requestedUrl_has_scheme url :
  JsString.startsWith "http://" (requestedUrl url) = true
  \/ JsString.startsWith "https://" (requestedUrl url) = true.
Proof.
  unfold requestedUrl.
  destruct (JsString.startsWith "http://" url) eqn:Hhttp; [left; exact Hhttp|].
  destruct (JsString.startsWith "https://" url) eqn:Hhttps; [right; exact Hhttps|].
  right. unfold JsString.startsWith. cbv [String.append]. simpl.
  destruct url; reflexivity.
Qed.

Lemma requestedUrl_fixed url :
  (JsString.startsWith "http://" url = true \/ JsString.startsWith "https://" url = true) ->
  requestedUrl url = url.
Proof. unfold requestedUrl. intros [-> | ->]; [reflexivity|]. rewrite andb_false_r. reflexivity. Qed.

Lemma requestedUrl_idempotent url : requestedUrl (requestedUrl url) = requestedUrl url.
Proof. apply requestedUrl_fixed, requestedUrl_has_scheme. Qed.

(** What [navigate] does to the page and whether it succeeds depend on
    the requested URL only. *)
Lemma navigate_by_requestedUrl url url' m :
  requestedUrl url = requestedUrl url' ->
  exists r r' m1 m1',
    navigate url m = (inr r, m1) /\ navigate url' m = (inr r', m1')
    /\ page m1 = page m1' /\ success r = success r' /\ data r = data r'.
Proof.
  intros Hsame.
  unfold navigate, try_catch, bind, await_page, checkRetryLimit, clearRetry,
    on_page, gets, modify, ret.
  fold (requestedUrl url). fold (requestedUrl url'). rewrite Hsame.
  cbn -[Nat.leb].
  destruct (page_do (Goto (requestedUrl url') 20000) (page m)) as [[e|] p];
    cbn -[Nat.leb].
  { destruct (3 <=? _)%nat; destruct (3 <=? _)%nat; do 4 eexists;
      (split; [reflexivity|split; [reflexivity|auto]]). }
  destruct (page_do (WaitForTimeout 1000) p) as [[e|] p1]; cbn -[Nat.leb].
  { destruct (3 <=? _)%nat; destruct (3 <=? _)%nat; do 4 eexists;
      (split; [reflexivity|split; [reflexivity|auto]]). }
  destruct (page_title p1) as [[e|t] p2]; cbn -[Nat.leb].
  { destruct (3 <=? _)%nat; destruct (3 <=? _)%nat; do 4 eexists;
      (split; [reflexivity|split; [reflexivity|auto]]). }
  do 4 eexists. split; [reflexivity|split; [reflexivity|auto]].
Qed.

End Navigation.

Section Typing.
Context `{Env}.

Lemma typePrimary_pageBound selector text pressEnter :
  pageBound (typePrimary selector text pressEnter).
Proof. unfold typePrimary. page_bound. Qed.

Lemma typeFill_pageBound selector text pressEnter :
  pageBound (typeFill selector text pressEnter).
Proof. unfold typeFill. page_bound. Qed.

Lemma typeSequentially_pageBound selector text pressEnter :
  pageBound (typeSequentially selector text pressEnter).
Proof. unfold typeSequentially. page_bound. Qed.

(** [typeText] on a resolved reference is its three strategies, each
    followed by the reset of the counter, nested in their handlers. *)
Lemma typeSelector_strategies ref selector text pressEnter m :
  typeSelector ref selector text pressEnter m
  = try_catch
      (typePrimary selector text pressEnter ;;
       clearRetry (getRetryKey "type" [ref]) ;;
       ret (typed text pressEnter []))
      (fun error =>
         let! again := checkRetryLimit (getRetryKey "type" [ref]) in
         if again then
           try_catch
             (typeFill selector text pressEnter ;;
              clearRetry (getRetryKey "type" [ref]) ;;
              ret (typed text pressEnter [("method", JStr "fill")]))
             (fun _ =>
                try_catch
                  (typeSequentially selector text pressEnter ;;
                   clearRetry (getRetryKey "type" [ref]) ;;
                   ret (typed text pressEnter [("method", JStr "pressSequentially")]))
                  (fun _ => ret (failed ("All type methods failed. Last error: "
                                         +:+ error))))
         else ret (failed ("Type failed after retries: " +:+ error))) m.
Proof.
  unfold typeSelector.
  apply try_catch_ext.
  { intros m'. unfold typePrimary. rewrite !bind_assoc.
    repeat (apply bind_ext; intros ? ?; rewrite ?bind_assoc). reflexivity. }
  intros e m'. apply bind_ext. intros [|] m''; [|reflexivity].
  apply try_catch_ext.
  { intros m3. unfold typeFill. rewrite !bind_assoc.
    repeat (apply bind_ext; intros ? ?; rewrite ?bind_assoc). reflexivity. }
  intros e2 m3. apply try_catch_ext; [|reflexivity].
  intros m4. unfold typeSequentially. rewrite !bind_assoc.
  repeat (apply bind_ext; intros ? ?; rewrite ?bind_assoc). reflexivity.
Qed.

Lemma typeText_resolved ref selector text pressEnter m :
  elementMap m !! ref = Some selector -> selector <> "" ->
  typeText ref text pressEnter m = typeSelector ref selector text pressEnter m.
Proof.
  intros Hsel Hne. unfold typeText, bind, gets. simpl. rewrite Hsel.
  destruct (decide (selector = "")); [contradiction|reflexivity].
Qed.

(** The run of a strategy followed by the reset of the counter. *)
Lemma strategy_returns (c : M unit) key (r : ToolResult) h m :
  outcome c m = inr tt ->
  try_catch (c ;; clearRetry key ;; ret r) h m
  = (inr r, set_retryCount (delete key (retryCount (exec c m))) (exec c m)).
Proof.
  intros Hc. unfold try_catch. rewrite (bind_returns _ _ _ _ Hc). reflexivity.
Qed.

Lemma strategy_throws (c : M unit) key (r : ToolResult) h m e :
  outcome c m = inl e ->
  try_catch (c ;; clearRetry key ;; ret r) h m = h e (exec c m).
Proof.
  intros Hc. unfold try_catch. rewrite (bind_throws _ _ _ _ Hc). reflexivity.
Qed.

(** The handler of [typeText] once the keyboard strategy threw. *)
Lemma typeSelector_caught ref selector text pressEnter m e :
  outcome (typePrimary selector text pressEnter) m = inl e ->
  let key := getRetryKey "type" [ref] in
  let count := default 0 (retryCount m !! key) in
  let m1 := exec (typePrimary selector text pressEnter) m in
  typeSelector ref selector text pressEnter m
  = if (3 <=? count)%nat
    then (inr (failed ("Type failed after retries: " +:+ e)),
          set_retryCount (delete key (retryCount m)) m1)
    else
      try_catch
        (typeFill selector text pressEnter ;;
         clearRetry key ;;
         ret (typed text pressEnter [("method", JStr "fill")]))
        (fun _ =>
           try_catch
             (typeSequentially selector text pressEnter ;;
              clearRetry key ;;
              ret (typed text pressEnter [("method", JStr "pressSequentially")]))
             (fun _ => ret (failed ("All type methods failed. Last error: " +:+ e))))
        (set_retryCount (<[key := count + 1]> (retryCount m)) m1).
Proof.
  intros Hprimary key count m1.
  assert (retryCount m1 = retryCount m) as Hcount
    by apply pageBound_retryCount, typePrimary_pageBound.
  rewrite typeSelector_strategies.
  rewrite (strategy_throws _ _ _ _ _ _ Hprimary). fold m1. fold key.
  unfold checkRetryLimit, bind at 1, gets, bind at 1, modify, ret.
  cbn -[Nat.leb typeFill typeSequentially]. rewrite Hcount. fold count.
  destruct (3 <=? count)%nat; unfold bind at 1 2;
    cbn -[typeFill typeSequentially]; rewrite ?Hcount; reflexivity.
Qed.

End Typing.


(** When the keyboard strategy of [typeText] throws [e]: with the
    counter of the reference at 3 the call fails for good, forgets the
    counter and tries nothing else; below 3 it tries [fill], then
    [pressSequentially], and the first that works makes the call a
    success that names the method and forgets the counter.  When both
    throw, the error the caller reads is [e], the one of the keyboard
    strategy, not the last one thrown, and the counter has grown by
    one. *)
Theorem typing_falls_back_and_reports_the_first_error `{Env}
    (ref selector text : string) (pressEnter : bool) (e : Err) (m : Machine) :
  let key := getRetryKey "type" [ref] in
  let count := default 0 (retryCount m !! key) in
  let m1 := exec (typePrimary selector text pressEnter) m in
  let m2 := exec (typeFill selector text pressEnter) m1 in
  let r := outcome (typeText ref text pressEnter) m in
  let m' := exec (typeText ref text pressEnter) m in
  elementMap m !! ref = Some selector -> selector <> "" ->
  outcome (typePrimary selector text pressEnter) m = inl e ->
  (3 <= count ->
     r = inr (failed ("Type failed after retries: " +:+ e))
     /\ retryCount m' !! key = None /\ page m' = page m1)
  /\ (count < 3 ->
      (outcome (typeFill selector text pressEnter) m1 = inr tt ->
         r = inr (typed text pressEnter [("method", JStr "fill")])
         /\ retryCount m' !! key = None)
      /\ (forall e2, outcome (typeFill selector text pressEnter) m1 = inl e2 ->
           (outcome (typeSequentially selector text pressEnter) m2 = inr tt ->
              r = inr (typed text pressEnter [("method", JStr "pressSequentially")])
              /\ retryCount m' !! key = None)
           /\ (forall e3,
                 outcome (typeSequentially selector text pressEnter) m2 = inl e3 ->
                 r = inr (failed ("All type methods failed. Last error: " +:+ e))
                 /\ retryCount m' !! key = Some (count + 1)))).
Proof.
  intros key count m1 m2 r m' Hsel Hne Hprimary.
  pose proof (typeSelector_caught ref selector text pressEnter m e Hprimary) as Hrun.
  cbv zeta in Hrun. fold key count m1 in Hrun.
  rewrite <- (typeText_resolved _ _ _ _ _ Hsel Hne) in Hrun.
  split.
  - intros Hge. apply Nat.leb_le in Hge. rewrite Hge in Hrun.
    unfold r, m', outcome, exec. rewrite Hrun. simpl.
    rewrite lookup_delete_eq. auto.
  - intros Hlt. apply Nat.leb_gt in Hlt. rewrite Hlt in Hrun.
    set (m1' := set_retryCount (<[key := count + 1]> (retryCount m)) m1) in Hrun.
    assert (exec (typeFill selector text pressEnter) m1'
            = set_retryCount (<[key := count + 1]> (retryCount m)) m2) as Hm2.
    { unfold m1'. rewrite pageBound_exec by apply typeFill_pageBound.
      reflexivity. }
    assert (outcome (typeFill selector text pressEnter) m1'
            = outcome (typeFill selector text pressEnter) m1) as Hfill1
      by (unfold m1'; apply pageBound_outcome, typeFill_pageBound).
    split.
    + intros Hfill. rewrite <- Hfill1 in Hfill.
      rewrite (strategy_returns _ _ _ _ _ Hfill) in Hrun.
      unfold r, m', outcome, exec. rewrite Hrun. simpl.
      rewrite lookup_delete_eq. auto.
    + intros e2 Hfill. rewrite <- Hfill1 in Hfill.
      rewrite (strategy_throws _ _ _ _ _ e2 Hfill), Hm2 in Hrun.
      split.
      * intros Hseq.
        rewrite <- (pageBound_outcome _ (<[key := count + 1]> (retryCount m)))
          in Hseq by apply typeSequentially_pageBound.
        rewrite (strategy_returns _ _ _ _ _ Hseq) in Hrun.
        unfold r, m', outcome, exec. rewrite Hrun. simpl.
        rewrite lookup_delete_eq. auto.
      * intros e3 Hseq.
        rewrite <- (pageBound_outcome _ (<[key := count + 1]> (retryCount m)))
          in Hseq by apply typeSequentially_pageBound.
        rewrite (strategy_throws _ _ _ _ _ e3 Hseq) in Hrun.
        unfold r, m', outcome, exec. rewrite Hrun. unfold ret. simpl.
        split; [reflexivity|].
        rewrite pageBound_exec by apply typeSequentially_pageBound.
        simpl. apply lookup_insert_eq.
Qed.

Lemma typing_falls_back_and_reports_the_first_error_witness :
  elementMap unfilled !! "input_1" = Some "#q"
  /\ outcome (typePrimary "#q" "rust" true) unfilled = inl "not visible"
  /\ outcome (typeText "input_1" "rust" true) unfilled
     = inr (failed "All type methods failed. Last error: not visible").
Proof.
  assert (elementMap unfilled !! "input_1" = Some "#q") as Hsel by reflexivity.
  assert (outcome (typePrimary "#q" "rust" true) unfilled = inl "not visible")
    as Hprimary by reflexivity.
  assert ("#q" <> "") as Hne by discriminate.
  destruct (@typing_falls_back_and_reports_the_first_error
              (scripted readOnlyField) "input_1" "#q" "rust" true "not visible"
              unfilled Hsel Hne Hprimary) as [_ Hbelow].
  destruct Hbelow as [_ Hfill]; [vm_compute; lia|].
  destruct (Hfill "not editable") as [_ Hseq]; [reflexivity|].
  destruct (Hseq "detached") as [Hr _]; [reflexivity|].
  repeat split; auto.
Defined.

Section Counters.
Context `{Env}.

Lemma append_inv_head (a b c : string) : a +:+ b = a +:+ c -> b = c.
Proof.
  induction a as [|x a IH]; [intros Heq; exact Heq|].
  change (String x (a +:+ b) = String x (a +:+ c) -> b = c).
  intros [= Heq]. apply IH, Heq.
Qed.

Lemma getRetryKey_inj action x y :
  getRetryKey action [x] = getRetryKey action [y] -> x = y.
Proof.
  unfold getRetryKey. simpl. intros Heq.
  apply append_inv_head in Heq. apply (append_inv_head ":") in Heq. exact Heq.
Qed.

Lemma navigate_success_clears url m r :
  outcome (navigate url) m = inr r -> success r = true ->
  retryCount (exec (navigate url) m) !! getRetryKey "navigate" [url] = None.
Proof.
  unfold outcome, exec, navigate, try_catch, bind, await_page, checkRetryLimit,
    clearRetry, on_page, gets, modify, ret.
  cbn -[Nat.leb].
  destruct (page_do _ (page m)) as [[e|] p]; cbn -[Nat.leb].
  { destruct (3 <=? _)%nat; intros [= <-]; discriminate. }
  destruct (page_do _ p) as [[e|] p1]; cbn -[Nat.leb].
  { destruct (3 <=? _)%nat; intros [= <-]; discriminate. }
  destruct (page_title p1) as [[e|t] p2]; cbn -[Nat.leb].
  { destruct (3 <=? _)%nat; intros [= <-]; discriminate. }
  intros _ _. apply lookup_delete_eq.
Qed.

End Counters.

(** One step of a frame proof for the counter of [key], with the keys
    the computation writes known to differ from it. *)
Ltac frame_key :=
  repeat first
    [ apply preserves_modify; intros ?; simpl;
      rewrite ?lookup_delete_ne, ?lookup_insert_ne by congruence; reflexivity
    | frame_step ].

(** From a fresh counter, three navigations to the same URL whose [goto]
    throws each return the failure that announces a retry and leave the
    counter at 1, 2 and 3; the fourth returns 'failed after retries'
    and deletes the counter.  None of them touches the bindings of the
    last snapshot.  A navigation that succeeds deletes the counter. *)
Theorem navigate_gives_up_on_the_fourth_failure `{Env}
    (url : string) (e1 e2 e3 e4 : Err) (m0 : Machine) :
  let key := getRetryKey "navigate" [url] in
  let m1 := exec (navigate url) m0 in
  let m2 := exec (navigate url) m1 in
  let m3 := exec (navigate url) m2 in
  let m4 := exec (navigate url) m3 in
  retryCount m0 !! key = None ->
  gotoThrows url e1 m0 -> gotoThrows url e2 m1 ->
  gotoThrows url e3 m2 -> gotoThrows url e4 m3 ->
  outcome (navigate url) m0
  = inr (failed ("Navigation failed: " +:+ e1 +:+ ". Retrying..."))
  /\ retryCount m1 !! key = Some 1
  /\ outcome (navigate url) m1
     = inr (failed ("Navigation failed: " +:+ e2 +:+ ". Retrying..."))
  /\ retryCount m2 !! key = Some 2
  /\ outcome (navigate url) m2
     = inr (failed ("Navigation failed: " +:+ e3 +:+ ". Retrying..."))
  /\ retryCount m3 !! key = Some 3
  /\ outcome (navigate url) m3
     = inr (failed ("Navigation failed after retries: " +:+ e4))
  /\ retryCount m4 !! key = None
  /\ elementMap m4 = elementMap m0
  /\ (forall m r, outcome (navigate url) m = inr r -> success r = true ->
                  retryCount (exec (navigate url) m) !! key = None).
Proof.
  intros key m1 m2 m3 m4 Hfresh Hf0 Hf1 Hf2 Hf3.
  destruct (navigate_failed url e1 m0 Hf0) as (n1 & Ho1 & Hr1 & He1).
  assert (m1 = n1) as <- by (unfold m1, exec; rewrite Ho1; reflexivity).
  fold key in Ho1, Hr1. rewrite Hfresh in Ho1, Hr1. simpl in Ho1, Hr1.
  assert (retryCount m1 !! key = Some 1) as Hc1 by (rewrite Hr1; apply lookup_insert_eq).
  destruct (navigate_failed url e2 m1 Hf1) as (n2 & Ho2 & Hr2 & He2).
  assert (m2 = n2) as <- by (unfold m2, exec; rewrite Ho2; reflexivity).
  fold key in Ho2, Hr2. rewrite Hc1 in Ho2, Hr2. simpl in Ho2, Hr2.
  assert (retryCount m2 !! key = Some 2) as Hc2 by (rewrite Hr2; apply lookup_insert_eq).
  destruct (navigate_failed url e3 m2 Hf2) as (n3 & Ho3 & Hr3 & He3).
  assert (m3 = n3) as <- by (unfold m3, exec; rewrite Ho3; reflexivity).
  fold key in Ho3, Hr3. rewrite Hc2 in Ho3, Hr3. simpl in Ho3, Hr3.
  assert (retryCount m3 !! key = Some 3) as Hc3 by (rewrite Hr3; apply lookup_insert_eq).
  destruct (navigate_failed url e4 m3 Hf3) as (n4 & Ho4 & Hr4 & He4).
  assert (m4 = n4) as <- by (unfold m4, exec; rewrite Ho4; reflexivity).
  fold key in Ho4, Hr4. rewrite Hc3 in Ho4, Hr4. simpl in Ho4, Hr4.
  unfold outcome. rewrite Ho1, Ho2, Ho3, Ho4. simpl.
  repeat split; auto.
  - rewrite Hr4. apply lookup_delete_eq.
  - congruence.
  - intros m r. apply navigate_success_clears.
Qed.

Lemma navigate_gives_up_on_the_fourth_failure_witness :
  let m0 := boot unresponsive in
  let m3 := exec (navigate "github.com")
              (exec (navigate "github.com") (exec (navigate "github.com") m0)) in
  gotoThrows "github.com" "Timeout" m0
  /\ outcome (navigate "github.com") m0
     = inr (failed "Navigation failed: Timeout. Retrying...")
  /\ outcome (navigate "github.com") m3
     = inr (failed "Navigation failed after retries: Timeout").
Proof.
  intros m0 m3.
  assert (forall m : @Machine (scripted unresponsive),
            gotoThrows "github.com" "Timeout" m) as Hthrows
    by (intros m; eexists; reflexivity).
  destruct (@navigate_gives_up_on_the_fourth_failure (scripted unresponsive)
              "github.com" "Timeout" "Timeout" "Timeout" "Timeout" m0
              eq_refl (Hthrows _) (Hthrows _) (Hthrows _) (Hthrows _))
    as (Hfirst & _ & _ & _ & _ & _ & Hfourth & _).
  split; [apply Hthrows|]. split; [exact Hfirst|exact Hfourth].
Defined.

(** [navigate] adds 'https://' to a URL that has no scheme only after it
    has formed the retry key.  So [url] and the URL it stands for make
    the same request, with the same success and data, yet fail against
    two separate counters: a failure of one leaves the counter of the
    other as it was. *)
Theorem navigate_keys_the_url_as_given `{Env} (url : string) (e : Err) (m : Machine) :
  requestedUrl url <> url -> gotoThrows url e m ->
  (exists r r' m1 m1',
      navigate url m = (inr r, m1) /\ navigate (requestedUrl url) m = (inr r', m1')
      /\ page m1 = page m1' /\ success r = success r' /\ data r = data r')
  /\ requestedUrl url = "https://" +:+ url
  /\ retryCount (exec (navigate url) m) !! getRetryKey "navigate" [requestedUrl url]
     = retryCount m !! getRetryKey "navigate" [requestedUrl url]
  /\ retryCount (exec (navigate (requestedUrl url)) m) !! getRetryKey "navigate" [url]
     = retryCount m !! getRetryKey "navigate" [url].
Proof.
  intros Hbare Hgoto.
  assert (getRetryKey "navigate" [url] <> getRetryKey "navigate" [requestedUrl url])
    as Hkeys by (intros Heq; apply getRetryKey_inj in Heq; congruence).
  split; [apply navigate_by_requestedUrl; symmetry; apply requestedUrl_idempotent|].
  split.
  { unfold requestedUrl in *.
    destruct (negb _ && negb _); [reflexivity|contradiction]. }
  split.
  - assert (preserves (fun m => retryCount m !! getRetryKey "navigate" [requestedUrl url])
              (navigate url)) as Hframe by frame_key.
    apply Hframe.
  - assert (preserves (fun m => retryCount m !! getRetryKey "navigate" [url])
              (navigate (requestedUrl url))) as Hframe by frame_key.
    apply Hframe.
Qed.

Lemma navigate_keys_the_url_as_given_witness :
  let m1 := exec (navigate "github.com") (boot unresponsive) in
  requestedUrl "github.com" = "https://github.com"
  /\ retryCount m1 !! getRetryKey "navigate" ["github.com"] = Some 1
  /\ retryCount m1 !! getRetryKey "navigate" ["https://github.com"] = None.
Proof.
  intros m1.
  assert (requestedUrl "github.com" <> "github.com") as Hbare by discriminate.
  assert (gotoThrows "github.com" "Timeout" (boot unresponsive)) as Hgoto
    by (eexists; reflexivity).
  destruct (@navigate_keys_the_url_as_given (scripted unresponsive)
              "github.com" "Timeout" (boot unresponsive) Hbare Hgoto)
    as (_ & Hfull & Hother & _).
  split; [exact Hfull|]. split; [reflexivity|].
  exact Hother.
Defined.

(** The retry counter an operation writes is the one of its own action
    and argument: [click], [typeText] and [navigate] leave every other
    counter as it was, and [scroll] and [getPageContext] leave them
    all.  Keys of one action differ when the arguments differ, and keys
    of different actions always differ.  So the count of failed clicks
    on a reference survives new snapshots and navigations, whatever
    element the reference names next. *)
Theorem retry_counters_are_per_action_and_argument `{Env} (key : string) :
  (forall ref m, key <> getRetryKey "click" [ref] ->
                 retryCount (exec (click ref) m) !! key = retryCount m !! key)
  /\ (forall ref text pressEnter m, key <> getRetryKey "type" [ref] ->
        retryCount (exec (typeText ref text pressEnter) m) !! key = retryCount m !! key)
  /\ (forall url m, key <> getRetryKey "navigate" [url] ->
        retryCount (exec (navigate url) m) !! key = retryCount m !! key)
  /\ (forall direction m, retryCount (exec (scroll direction) m) = retryCount m)
  /\ (forall m, retryCount (exec getPageContext m) = retryCount m)
  /\ (forall action x y, getRetryKey action [x] = getRetryKey action [y] -> x = y)
  /\ (forall x y, getRetryKey "click" [x] <> getRetryKey "type" [y]
                  /\ getRetryKey "click" [x] <> getRetryKey "navigate" [y]
                  /\ getRetryKey "type" [x] <> getRetryKey "navigate" [y]).
Proof.
  split.
  { intros ref m Hkey.
    assert (preserves (fun m => retryCount m !! key) (click ref)) as Hframe by frame_key.
    apply Hframe. }
  split.
  { intros ref text pressEnter m Hkey.
    assert (preserves (fun m => retryCount m !! key) (typeText ref text pressEnter))
      as Hframe by frame_key.
    apply Hframe. }
  split.
  { intros url m Hkey.
    assert (preserves (fun m => retryCount m !! key) (navigate url)) as Hframe
      by frame_key.
    apply Hframe. }
  split.
  { intros direction m.
    assert (preserves retryCount (scroll direction)) as Hframe by frame.
    apply Hframe. }
  split.
  { intros m. assert (preserves retryCount getPageContext) as Hframe by frame.
    apply Hframe. }
  split; [apply getRetryKey_inj|].
  intros x y. repeat split; discriminate.
Qed.

(** * Scrolling and failed snapshots *)

Section Scroll.
Context `{Env}.



End Scroll.



Section FailedSnapshot.
Context `{Env}.

Lemma getPageContext_failure m r :
  outcome getPageContext m = inr r -> success r = false ->
  elementMap (exec getPageContext m) = elementMap m
  /\ exists e, error r = Some ("Failed to extract page context: " +:+ e).
Proof.
  unfold outcome, exec. destruct (getPageContext m) as [o m'] eqn:Hrun. simpl.
  intros -> Hfail. revert Hrun.
  unfold getPageContext, try_catch, bind at 1, await_page.
  destruct (page_do _ (page m)) as [[e|] p];
    [unfold ret; intros [= <- <-]; simpl; eauto|].
  unfold extractPageContext, bind, gets, on_page, modify, ret. simpl.
  destruct (page_title p) as [[e|t] p1];
    [intros Heq; inversion Heq; subst; simpl; eauto|].
  simpl.
  destruct (page_document p1) as [[e|document] p2];
    [intros Heq; inversion Heq; subst; simpl; eauto|].
  intros Heq; inversion Heq; subst. simpl in Hfail. discriminate Hfail.
Qed.

End FailedSnapshot.

(** A snapshot that fails (the page does not load in time, or its title
    or document cannot be read) leaves the reference map of the last
    successful snapshot in place: references it bound still resolve,
    to their old selectors. *)
Theorem failed_snapshot_keeps_the_old_references `{Env}
    (m : Machine) (r : ToolResult) (ref selector : string) :
  outcome getPageContext m = inr r -> success r = false ->
  elementMap m !! ref = Some selector -> selector <> "" ->
  elementMap (exec getPageContext m) = elementMap m
  /\ (exists e, error r = Some ("Failed to extract page context: " +:+ e))
  /\ click ref (exec getPageContext m)
     = clickSelector ref selector (exec getPageContext m).
Proof.
  intros Hrun Hfail Hsel Hne.
  destruct (getPageContext_failure m r Hrun Hfail) as (Hmap & Herr).
  split; [exact Hmap|]. split; [exact Herr|].
  unfold click, bind, gets. simpl. rewrite Hmap, Hsel.
  destruct (decide (selector = "")); [contradiction|reflexivity].
Qed.

Lemma failed_snapshot_keeps_the_old_references_witness :
  outcome getPageContext stuck
  = inr (failed "Failed to extract page context: Timeout")
  /\ elementMap (exec getPageContext stuck) !! "btn_1" = Some "#go".
Proof.
  assert (outcome getPageContext stuck
          = inr (failed "Failed to extract page context: Timeout")) as Hrun
    by reflexivity.
  assert ("#go" <> "") as Hne by discriminate.
  destruct (@failed_snapshot_keeps_the_old_references (scripted unresponsive)
              stuck _ "btn_1" "#go" Hrun eq_refl eq_refl Hne) as (Hmap & _).
  split; [exact Hrun|]. rewrite Hmap. reflexivity.
Defined.

(** * The tool surface and the two dispatchers *)

Section Dispatch.
Context `{Env}.

Lemma neverThrows_prop k args : args <> JNull -> neverThrows (prop k args).
Proof.
  intros Hargs m. unfold prop.
  destruct args; [contradiction|..]; eexists; reflexivity.
Qed.

End Dispatch.

(** A proof that a handler does not throw once its arguments are not
    [null]. *)
Ltac total_args :=
  repeat first
    [ apply neverThrows_prop; assumption
    | total_step ].

Ltac post_args := repeat first [ post_step | progress cbv zeta ].

Ltac known_name H :=
  simpl in H;
  repeat (apply elem_of_cons in H as [-> | H]);
  [..|apply elem_of_nil in H; contradiction].


(** The profile scanner answers exactly the five tools it declares.
    Each of them that returns gives an object that opens with a boolean
    [success]; it throws only when its arguments are [null].  Any other
    name, the coordinator's [navigate] and [type_text] among them,
    changes nothing and yields 'Unknown tool' followed by the name. *)
Theorem scanner_answers_the_declared_tools `{Env} (toolCall : ToolCall) :
  (tc_name toolCall ∈ (schema_name <$> getSubAgentTools) ->
   returns reportsSuccess (executeSubAgentTool toolCall))
  /\ (tc_name toolCall ∈ (schema_name <$> getSubAgentTools) ->
      tc_args toolCall <> Some JNull ->
      neverThrows (executeSubAgentTool toolCall))
  /\ (tc_name toolCall ∉ (schema_name <$> getSubAgentTools) ->
      forall m, executeSubAgentTool toolCall m
                = (inr (unknownTool (tc_name toolCall)), m))
  /\ ("navigate" ∉ schema_name <$> getSubAgentTools)
  /\ ("type_text" ∉ schema_name <$> getSubAgentTools).
Proof.
  destruct toolCall as [id name args]. simpl.
  assert (args <> Some JNull -> default (JObj []) args <> JNull) as Hnull.
  { destruct args as [[]|]; simpl; congruence. }
  split; [|split; [|split; [|split]]].
  - intros Hin. known_name Hin; unfold executeSubAgentTool; simpl; post_args.
  - intros Hin Hargs. apply Hnull in Hargs.
    known_name Hin; unfold executeSubAgentTool; simpl; total_args.
  - intros Hnot m. unfold executeSubAgentTool. simpl.
    repeat (case_decide;
            [subst name; exfalso; apply Hnot; simpl; set_solver|]).
    reflexivity.
  - simpl. rewrite !elem_of_cons, elem_of_nil. intros Hin.
    repeat destruct Hin as [Hin|Hin]; try discriminate; exact Hin.
  - simpl. rewrite !elem_of_cons, elem_of_nil. intros Hin.
    repeat destruct Hin as [Hin|Hin]; try discriminate; exact Hin.
Qed.

(** * The shape of a snapshot *)

Section SnapshotShape.
Import JsString.




Lemma slice0_nonempty n s : s <> "" -> slice0 (S n) s <> "".
Proof. destruct s; [congruence|discriminate]. Qed.

Lemma or_nonempty_r (a b : string) : b <> "" -> a ||| b <> "".
Proof. intros Hb. unfold JsString.or. case_decide; congruence. Qed.

(** What each pass pushes. *)
Lemma entry_shape (body : Node -> list RawElement) el r :
  body ∈ [Extractor.linkEntry; Extractor.buttonEntry;
          Extractor.inputEntry; Extractor.selectEntry] ->
  r ∈ body el ->
  raw_text r <> ""
  /\ raw_selector r = Extractor.getSelector el
  /\ match raw_type r with
     | link => exists h, raw_href r = Some h /\ h <> ""
                         /\ startsWith "javascript:" h = false
     | _ => raw_href r = None
     end.
Proof.
  intros Hbody.
  repeat (apply elem_of_cons in Hbody as [->|Hbody]); [| | | |inversion Hbody].
  - unfold Extractor.linkEntry. destruct (isVisible el); cbn -[slice0]; [|intros Hin; inversion Hin].
    destruct (bool_decide (_ = "")) eqn:Htext; cbn -[slice0]; [intros Hin; inversion Hin|].
    destruct (bool_decide (nul _ = "")) eqn:Hhref; cbn -[slice0]; [intros Hin; inversion Hin|].
    destruct (startsWith "javascript:" _) eqn:Hjs; cbn -[slice0]; [intros Hin; inversion Hin|].
    intros ->%list_elem_of_singleton. cbn -[slice0].
    apply bool_decide_eq_false in Htext, Hhref.
    split; [apply slice0_nonempty, Htext|]. split; [reflexivity|]. eauto.
  - unfold Extractor.buttonEntry. destruct (isVisible el); cbn -[slice0]; [|intros Hin; inversion Hin].
    intros ->%list_elem_of_singleton. cbn -[slice0].
    split; [apply slice0_nonempty, or_nonempty_r; discriminate|]. auto.
  - unfold Extractor.inputEntry. destruct (isVisible el); cbn -[slice0]; [|intros Hin; inversion Hin].
    intros ->%list_elem_of_singleton. cbn -[slice0].
    split; [apply slice0_nonempty, or_nonempty_r; discriminate|].
    split; [reflexivity|].
    destruct (decide (Extractor.tag el = "textarea")); reflexivity.
  - unfold Extractor.selectEntry. destruct (isVisible el); cbn -[slice0]; [|intros Hin; inversion Hin].
    intros ->%list_elem_of_singleton. cbn -[slice0].
    split; [apply slice0_nonempty, or_nonempty_r; discriminate|]. auto.
Qed.

Lemma scanDocument_shape document r :
  r ∈ Extractor.scanDocument document ->
  exists el, el ∈ document
    /\ raw_text r <> ""
    /\ raw_selector r = Extractor.getSelector el
    /\ match raw_type r with
       | link => exists h, raw_href r = Some h /\ h <> ""
                           /\ startsWith "javascript:" h = false
       | _ => raw_href r = None
       end.
Proof.
  unfold Extractor.scanDocument. rewrite !elem_of_app.
  intros [Hin|[Hin|[Hin|Hin]]];
    apply forEachMatch_elem in Hin as (el & Hel & Hin);
    exists el; (split; [exact Hel|]);
    (eapply entry_shape; [|exact Hin]); set_solver.
Qed.

End SnapshotShape.


(** Every entry of a snapshot has a text that is not empty and the
    selector [getSelector] gives some node of the document.  A link
    carries its target, which is neither empty nor a 'javascript:'
    URL; an entry of any other type carries none. *)
Theorem snapshot_entries_are_labelled (document : list Node) (e : PageElement) :
  e ∈ Extractor.pageElements document ->
  text e <> ""
  /\ (exists el, el ∈ document /\ selector e = Extractor.getSelector el)
  /\ match el_type e with
     | link => exists h, href e = Some h /\ h <> ""
                         /\ JsString.startsWith "javascript:" h = false
     | _ => href e = None
     end.
Proof.
  intros (r & Hr & Htype & Htext & Hsel & Hhref)%pageElements_raw.
  apply scanDocument_shape in Hr as (el & Hel & Hne & Hs & Hshape).
  rewrite Htext, Hsel, Htype, Hhref. split; [exact Hne|].
  split; [exists el; auto|exact Hshape].
Qed.

Lemma snapshot_entries_are_labelled_witness :
  let document := [anchor "/x" "Hello"; anchor "javascript:void(0)" "Menu"] in
  exists e, Extractor.pageElements document = [e]
            /\ text e <> "" /\ href e = Some "/x".
Proof.
  intros document.
  set (e := {| ref := "link_1"; el_type := link; text := "Hello";
               selector := "a"; href := Some "/x" |}).
  assert (Extractor.pageElements document = [e]) as Hrun by reflexivity.
  assert (e ∈ Extractor.pageElements document) as Hin
    by (rewrite Hrun; apply list_elem_of_singleton; reflexivity).
  destruct (snapshot_entries_are_labelled document e Hin) as (Hne & _ & _).
  exists e. split; [exact Hrun|]. split; [exact Hne|reflexivity].
Defined.

(** * The order of a snapshot and the cut at 150 *)

Section SnapshotOrder.
Import JsString.

Lemma StronglySorted_sublist {A} (R : relation A) (l1 l2 : list A) :
  l1 `sublist_of` l2 -> StronglySorted R l2 -> StronglySorted R l1.
Proof.
  induction 1 as [|x l1 l2 Hsub IH|x l1 l2 Hsub IH]; intros Hsorted.
  - constructor.
  - apply StronglySorted_inv in Hsorted as [Hrest Hall].
    constructor; [apply IH, Hrest|].
    apply Forall_forall. intros y Hy. rewrite Forall_forall in Hall.
    apply Hall. eapply elem_of_sublist; eauto.
  - apply StronglySorted_inv in Hsorted as [Hrest _]. apply IH, Hrest.
Qed.

Lemma StronglySorted_through {A B} (f : A -> B) (R : relation B) (l : list A) :
  StronglySorted (fun a b => R (f a) (f b)) l <-> StronglySorted R (f <$> l).
Proof.
  induction l as [|x l IH]; simpl; [split; constructor|].
  split; intros [Hrest Hall]%StronglySorted_inv; constructor;
    try (apply IH, Hrest);
    rewrite Forall_fmap in *; exact Hall.
Qed.

Lemma dedup_sublist seen raw : Extractor.dedup seen raw `sublist_of` raw.
Proof.
  revert seen. induction raw as [|r raw IH]; intros seen; simpl; [constructor|].
  case_decide; [apply sublist_cons, IH|apply sublist_skip, IH].
Qed.

Lemma linkEntry_type el r : r ∈ Extractor.linkEntry el -> raw_type r = link.
Proof.
  unfold Extractor.linkEntry. destruct (isVisible el); cbn -[slice0]; [|intros Hin; inversion Hin].
  match goal with |- context [if ?c then _ else _] => destruct c end;
    [|intros Hin; inversion Hin].
  intros ->%list_elem_of_singleton. reflexivity.
Qed.

Lemma buttonEntry_type el r : r ∈ Extractor.buttonEntry el -> raw_type r = button.
Proof.
  unfold Extractor.buttonEntry. destruct (isVisible el); cbn -[slice0]; [|intros Hin; inversion Hin].
  intros ->%list_elem_of_singleton. reflexivity.
Qed.

Lemma inputEntry_type el r :
  r ∈ Extractor.inputEntry el -> raw_type r = input \/ raw_type r = textarea.
Proof.
  unfold Extractor.inputEntry. destruct (isVisible el); cbn -[slice0]; [|intros Hin; inversion Hin].
  intros ->%list_elem_of_singleton. cbn -[slice0]. case_decide; auto.
Qed.

Lemma selectEntry_type el r : r ∈ Extractor.selectEntry el -> raw_type r = select.
Proof.
  unfold Extractor.selectEntry. destruct (isVisible el); cbn -[slice0]; [|intros Hin; inversion Hin].
  intros ->%list_elem_of_singleton. reflexivity.
Qed.

(** The pass an entry of the scan comes from is the one of its type. *)
Lemma forEachMatch_pass sel body n document :
  (forall el r, r ∈ body el -> pass (raw_type r) = n) ->
  Forall (fun r => pass (raw_type r) = n) (Extractor.forEachMatch sel body document).
Proof.
  intros Hbody. apply Forall_forall. intros r (el & _ & Hin)%forEachMatch_elem.
  eapply Hbody, Hin.
Qed.

Lemma StronglySorted_level {A} (f : A -> nat) n (l : list A) :
  Forall (fun x => f x = n) l -> StronglySorted (fun a b => f a <= f b) l.
Proof.
  induction 1 as [|x l Hx Hl IH]; constructor; [exact IH|].
  eapply Forall_impl; [exact Hl|]. simpl. intros y Hy. lia.
Qed.

Lemma scanDocument_sorted document :
  StronglySorted (fun a b => pass (raw_type a) <= pass (raw_type b))
    (Extractor.scanDocument document).
Proof.
  unfold Extractor.scanDocument.
  pose proof (forEachMatch_pass Extractor.matchesLink Extractor.linkEntry 0 document) as Hl.
  pose proof (forEachMatch_pass Extractor.matchesButton Extractor.buttonEntry 1 document) as Hb.
  pose proof (forEachMatch_pass Extractor.matchesInput Extractor.inputEntry 2 document) as Hi.
  pose proof (forEachMatch_pass Extractor.matchesSelect Extractor.selectEntry 3 document) as Hs.
  specialize (Hl ltac:(intros el r ->%linkEntry_type; reflexivity)).
  specialize (Hb ltac:(intros el r ->%buttonEntry_type; reflexivity)).
  specialize (Hi ltac:(intros el r [-> | ->]%inputEntry_type; reflexivity)).
  specialize (Hs ltac:(intros el r ->%selectEntry_type; reflexivity)).
  rewrite Forall_forall in Hl, Hb, Hi, Hs.
  assert (forall n (l : list RawElement),
            (forall x, x ∈ l -> pass (raw_type x) = n) ->
            StronglySorted (fun a b => pass (raw_type a) <= pass (raw_type b)) l)
    as Hlevel.
  { intros n l Hn. eapply (StronglySorted_level (fun r => pass (raw_type r)) n).
    apply Forall_forall, Hn. }
  apply StronglySorted_app; split; [|split; [eapply Hlevel, Hl|]].
  { intros a b Ha Hin. rewrite (Hl a Ha). lia. }
  apply StronglySorted_app; split; [|split; [eapply Hlevel, Hb|]].
  { intros a b Ha Hin. rewrite (Hb a Ha).
    apply elem_of_app in Hin as [Hin|Hin]; [rewrite (Hi b Hin)|rewrite (Hs b Hin)]; lia. }
  apply StronglySorted_app; split; [|split; [eapply Hlevel, Hi|eapply Hlevel, Hs]].
  intros a b Ha Hin. rewrite (Hi a Ha), (Hs b Hin). lia.
Qed.

Lemma assignRefs_types counters raw :
  el_type <$> Extractor.assignRefs counters raw = raw_type <$> raw.
Proof.
  revert counters. induction raw as [|r raw IH]; intros counters; [reflexivity|].
  cbn [Extractor.assignRefs fmap list_fmap el_type]. f_equal. apply IH.
Qed.

Lemma pageElements_types document :
  el_type <$> Extractor.pageElements document
  `sublist_of` raw_type <$> Extractor.scanDocument document.
Proof.
  unfold Extractor.pageElements, Extractor.compress. rewrite assignRefs_types.
  apply fmap_sublist. etrans; [apply sublist_take|apply dedup_sublist].
Qed.

(** The reference [assignRefs] gives the entry at index [i]. *)
Lemma assignRefs_rank counters raw i e :
  Extractor.assignRefs counters raw !! i = Some e ->
  ref e = Extractor.prefix (el_type e) +:+ "_"
          +:+ pretty (counters (el_type e)
                      + rank (Extractor.assignRefs counters raw) i e)%nat.
Proof.
  revert counters i. induction raw as [|r raw IH]; intros counters i; [discriminate|].
  destruct i as [|i].
  - intros [= <-]. unfold rank. cbn [take filter list_filter length el_type ref].
    reflexivity.
  - cbn [Extractor.assignRefs lookup list_lookup]. intros Hi.
    rewrite (IH _ _ Hi). unfold rank.
    cbn [take]. rewrite filter_cons. cbn [el_type].
    do 3 f_equal.
    destruct (decide (el_type e = raw_type r)) as [Heq|Hne].
    + rewrite decide_True by congruence. simpl. rewrite Heq. lia.
    + rewrite decide_False by congruence. reflexivity.
Qed.

Lemma dedup_app seen l1 l2 :
  Extractor.dedup seen (l1 ++ l2)%list
  = (Extractor.dedup seen l1
     ++ Extractor.dedup (list_to_set (Extractor.dedupKey <$> l1) ∪ seen) l2)%list.
Proof.
  revert seen. induction l1 as [|r l1 IH]; intros seen.
  - simpl. f_equal. set_solver.
  - cbn [app Extractor.dedup fmap list_fmap list_to_set].
    case_decide as Hseen.
    + rewrite IH. f_equal. f_equal. set_solver.
    + cbn [app]. f_equal. rewrite IH. f_equal. f_equal. set_solver.
Qed.

End SnapshotOrder.

(** A snapshot lists its entries pass by pass: all links, then all
    buttons, then the inputs and text areas, then the selects.  The
    reference of an entry is the prefix of its type and its rank among
    the entries of that type, so each type is numbered 1, 2, 3, ...
    without gaps in the order of the list. *)
Theorem snapshot_is_grouped_and_numbered_by_type (document : list Node) :
  StronglySorted (fun a b => pass (el_type a) <= pass (el_type b))
    (Extractor.pageElements document)
  /\ (forall i e, Extractor.pageElements document !! i = Some e ->
        ref e = Extractor.prefix (el_type e) +:+ "_"
                +:+ pretty (rank (Extractor.pageElements document) i e)).
Proof.
  split.
  - pose proof (scanDocument_sorted document) as Hsorted.
    apply (StronglySorted_through raw_type (fun a b => pass a <= pass b)) in Hsorted.
    apply (StronglySorted_through el_type (fun a b => pass a <= pass b)).
    eapply StronglySorted_sublist; [apply pageElements_types|exact Hsorted].
  - intros i e Hi. unfold Extractor.pageElements, Extractor.compress in *.
    rewrite (assignRefs_rank _ _ _ _ Hi). reflexivity.
Qed.

(** The cut at 150 is made on the list of the four passes in their
    order, after deduplication.  So on a page with 150 or more distinct
    links the snapshot is the first 150 of them and nothing else: no
    button, input, text area or select of the page gets a reference. *)
Theorem links_crowd_out_every_other_element (document : list Node) :
  150 <= length (Extractor.dedup ∅
                   (Extractor.forEachMatch Extractor.matchesLink Extractor.linkEntry
                      document)) ->
  Extractor.pageElements document
  = Extractor.compress
      (Extractor.forEachMatch Extractor.matchesLink Extractor.linkEntry document)
  /\ length (Extractor.pageElements document) = 150
  /\ (forall e, e ∈ Extractor.pageElements document -> el_type e = link).
Proof.
  intros Hmany.
  assert (Extractor.pageElements document
          = Extractor.compress
              (Extractor.forEachMatch Extractor.matchesLink Extractor.linkEntry document))
    as Hsame.
  { unfold Extractor.pageElements, Extractor.compress, Extractor.scanDocument.
    rewrite dedup_app, take_app_le by exact Hmany. reflexivity. }
  split; [exact Hsame|]. split.
  - rewrite Hsame. unfold Extractor.compress.
    rewrite assignRefs_length, length_take. lia.
  - intros e. rewrite Hsame. unfold Extractor.compress.
    intros (i & Hi)%list_elem_of_lookup.
    apply assignRefs_lookup in Hi as (r & Hr & -> & _).
    apply lookup_take_Some in Hr as [Hr _].
    assert (r ∈ Extractor.dedup ∅
                  (Extractor.forEachMatch Extractor.matchesLink Extractor.linkEntry document))
      as Hin by (apply list_elem_of_lookup; eauto).
    eapply elem_of_sublist in Hin; [|apply dedup_sublist].
    apply forEachMatch_elem in Hin as (el & _ & Hin).
    eapply linkEntry_type, Hin.
Qed.

Lemma links_crowd_out_every_other_element_witness :
  searchBox ∈ directory
  /\ contributes searchBox = true
  /\ length (Extractor.pageElements directory) = 150
  /\ (forall e, e ∈ Extractor.pageElements directory -> el_type e = link).
Proof.
  assert (150 <= length (Extractor.dedup ∅
                           (Extractor.forEachMatch Extractor.matchesLink
                              Extractor.linkEntry directory))) as Hmany
    by (vm_compute; lia).
  destruct (links_crowd_out_every_other_element directory Hmany) as (_ & Hlen & Hlinks).
  split; [unfold directory; apply elem_of_app; right; apply list_elem_of_singleton; reflexivity|].
  split; [reflexivity|]. split; [exact Hlen|exact Hlinks].
Defined.

(** * The path selector *)

Section PathSelector.
Import JsString.

Lemma pathLoop_length chain pathParts :
  length pathParts <= 4 -> length (Extractor.pathLoop chain pathParts) <= 5.
Proof.
  revert pathParts. induction chain as [|current parents IH]; intros pathParts Hlen; simpl.
  - lia.
  - destruct (isBody current); [lia|].
    destruct (4 <? S (length pathParts))%nat eqn:Hfull; [simpl; lia|].
    apply Nat.ltb_ge in Hfull. apply IH. simpl. lia.
Qed.

(** The loop reads at most the elements it turns into parts and, of
    the next one, only that it exists. *)
Lemma pathLoop_take chain pathParts :
  length pathParts <= 4 ->
  Extractor.pathLoop (take (6 - length pathParts) chain) pathParts
  = Extractor.pathLoop chain pathParts.
Proof.
  revert pathParts. induction chain as [|current parents IH]; intros pathParts Hlen.
  - rewrite take_nil. reflexivity.
  - replace (6 - length pathParts) with (S (5 - length pathParts)) by lia.
    cbn [take Extractor.pathLoop].
    destruct (isBody current); [reflexivity|].
    assert (bool_decide (take (5 - length pathParts) parents <> [])
            = bool_decide (parents <> [])) as ->.
    { destruct parents as [|p parents]; [rewrite take_nil; reflexivity|].
      replace (5 - length pathParts) with (S (4 - length pathParts)) by lia.
      reflexivity. }
    cbn [length].
    destruct (4 <? S (length pathParts))%nat eqn:Hfull; [reflexivity|].
    apply Nat.ltb_ge in Hfull.
    specialize (IH (Extractor.pathPart current (bool_decide (parents <> [])) :: pathParts)).
    cbn [length] in IH.
    replace (6 - S (length pathParts)) with (5 - length pathParts) in IH by lia.
    apply IH. lia.
Qed.

Lemma getSelector_path el :
  node_id el = "" -> nul (getAttribute "data-testid" el) = ""
  -> nul (getAttribute "aria-label" el) = "" ->
  Extractor.getSelector el
  = join " > " (Extractor.pathLoop (self el :: ancestors el) []).
Proof.
  intros Hid Htest Haria. unfold Extractor.getSelector.
  rewrite decide_True by exact Hid.
  destruct (getAttribute "data-testid" el) as [testId|]; simpl in Htest.
  - subst testId. rewrite decide_True by reflexivity.
    rewrite decide_True by exact Haria. reflexivity.
  - rewrite decide_True by exact Haria. reflexivity.
Qed.

End PathSelector.

(** For an element without id, test id and aria-label the selector is a
    path of at most five parts, and it is read off the element, its
    four nearest ancestors and the existence of a fifth: the path is
    not anchored at the body.  So two such elements whose chains agree
    on their first six entries get one selector, wherever they sit in
    the page above that. *)
Theorem path_selector_reads_five_levels (el : Node) :
  node_id el = "" -> JsString.nul (getAttribute "data-testid" el) = ""
  -> JsString.nul (getAttribute "aria-label" el) = "" ->
  length (Extractor.pathLoop (self el :: ancestors el) []) <= 5
  /\ Extractor.getSelector el
     = JsString.join " > " (Extractor.pathLoop (take 6 (self el :: ancestors el)) [])
  /\ (forall el',
        node_id el' = "" -> JsString.nul (getAttribute "data-testid" el') = ""
        -> JsString.nul (getAttribute "aria-label" el') = "" ->
        take 6 (self el' :: ancestors el') = take 6 (self el :: ancestors el) ->
        Extractor.getSelector el' = Extractor.getSelector el).
Proof.
  intros Hid Htest Haria.
  split; [apply pathLoop_length; simpl; lia|].
  assert (forall x, node_id x = "" -> JsString.nul (getAttribute "data-testid" x) = ""
                    -> JsString.nul (getAttribute "aria-label" x) = "" ->
                    Extractor.getSelector x
                    = JsString.join " > "
                        (Extractor.pathLoop (take 6 (self x :: ancestors x)) []))
    as Hread.
  { intros x Hx1 Hx2 Hx3. rewrite (getSelector_path x Hx1 Hx2 Hx3).
    rewrite <- (pathLoop_take (self x :: ancestors x) []) by (simpl; lia).
    reflexivity. }
  split; [apply Hread; assumption|].
  intros el' Hid' Htest' Haria' Hsame.
  rewrite (Hread el' Hid' Htest' Haria'), (Hread el Hid Htest Haria), Hsame.
  reflexivity.
Qed.

Lemma path_selector_reads_five_levels_witness :
  deepLink "sidebar" <> deepLink "results"
  /\ Extractor.getSelector (deepLink "sidebar") = "div > ul > li > span > a"
  /\ Extractor.getSelector (deepLink "results") = Extractor.getSelector (deepLink "sidebar").
Proof.
  destruct (path_selector_reads_five_levels (deepLink "sidebar") eq_refl eq_refl eq_refl)
    as (_ & _ & Hsame).
  split; [discriminate|]. split; [reflexivity|].
  apply Hsame; reflexivity.
Defined.

(** * Edges of the two agents *)

Section Completion.
Context `{Env}.

Lemma agentLoop_done remaining iteration m :
  taskComplete m = true -> agentLoop remaining iteration m = (inr iteration, m).
Proof.
  intros Hdone. destruct remaining; [reflexivity|].
  simpl. unfold bind, gets. rewrite Hdone. reflexivity.
Qed.

(** What a [task_complete] invocation leaves: the flag is raised before
    the arguments are read. *)
Lemma executeTool_task_complete toolCall m :
  tc_name toolCall = "task_complete" ->
  taskComplete (exec (executeTool toolCall) m) = true
  /\ taskResult (exec (executeTool toolCall) m)
     = match default (JObj []) (tc_args toolCall) with
       | JNull => taskResult m
       | args => Some (completion args)
       end.
Proof.
  intros Hname. unfold exec, executeTool. rewrite Hname.
  unfold dispatch. simpl.
  unfold handleTaskComplete, try_catch, bind, modify, prop, push, throw, ret.
  destruct (default (JObj []) (tc_args toolCall)); simpl; auto.
Qed.

End Completion.

(** When the model's first proposal is one [task_complete] invocation,
    the run ends after that one iteration.  With arguments that are not
    [null] the result is a success that carries their [candidates] and
    [summary] as they are, present or not.  With [null] for arguments
    the flag is raised but no result is stored, and the run returns
    the failure 'Task did not complete within 500 iterations' after its
    first iteration. *)
Theorem task_complete_ends_the_run_at_once `{Env}
    (task : string) (m : Machine) (message : AssistantMessage) (o' : Oracle)
    (toolCall : ToolCall) :
  chat_create "o3-mini"
    [SystemMessage SYSTEM_PROMPT; UserMessage (formatTaskPrompt task)] (oracle m)
  = (inr message, o') ->
  tool_calls message = [toolCall] ->
  tc_name toolCall = "task_complete" ->
  outcome (runTaskCounting task) m
  = inr (match default (JObj []) (tc_args toolCall) with
         | JNull => budgetExhausted
         | args => completion args
         end, 1)
  /\ taskComplete (exec (runTaskCounting task) m) = true.
Proof.
  intros Hchat Hcalls Hname.
  unfold outcome, exec. rewrite runTaskCounting_unfold.
  set (m0 := set_messages _ _).
  assert (taskComplete m0 = false) as Hrunning by reflexivity.
  unfold MAX_ITERATIONS. rewrite (agentLoop_step _ _ _ Hrunning).
  assert (exec agentIteration m0
          = exec (executeTool toolCall)
              (set_messages (messages m0 ++ [Assistant message]) (set_oracle o' m0)))
    as Hstep.
  { unfold exec at 1. rewrite (agentIteration_reply m0 message o' Hchat).
    rewrite Hcalls. simpl. unfold exec, bind.
    pose proof (executeTool_total toolCall
                  (set_messages (messages m0 ++ [Assistant message]) (set_oracle o' m0)))
      as Htotal.
    unfold outcome in Htotal.
    destruct (executeTool toolCall _) as [o m1]. simpl in Htotal. subst o.
    reflexivity. }
  destruct (executeTool_task_complete toolCall
              (set_messages (messages m0 ++ [Assistant message]) (set_oracle o' m0))
              Hname) as (Hflag & Hresult).
  rewrite <- Hstep in Hflag, Hresult.
  rewrite (agentLoop_done _ _ _ Hflag). simpl. rewrite Hresult.
  split; [|exact Hflag].
  destruct (default (JObj []) (tc_args toolCall)); reflexivity.
Qed.

Lemma task_complete_ends_the_run_at_once_witness :
  outcome (runTaskCounting "find Go developers") (boot hasty) = inr (budgetExhausted, 1)
  /\ taskComplete (exec (runTaskCounting "find Go developers") (boot hasty)) = true.
Proof.
  exact (@task_complete_ends_the_run_at_once (scripted hasty) "find Go developers"
           (boot hasty) _ _ _ eq_refl eq_refl eq_refl).
Defined.

Section DeepScan.
Context `{Env}.
Import JsString.

Lemma prop_defined k args : args <> JNull -> prop k args = ret (jfield k args).
Proof. intros Hargs. destruct args; [contradiction|..]; reflexivity. Qed.

Lemma scanProfile_navigation_failed profileUrl username e m :
  gotoThrows profileUrl e m ->
  exists m',
    scanProfile profileUrl username m
    = (inr {| psr_success := false;
              profileUrl := profileUrl;
              socialLinks := JObj [];
              tldrSummary := JStr "Failed to scan profile - navigation error";
              additionalData := None |}, m')
    /\ oracle m' = oracle m /\ scanResult m' = None /\ scanMessages m' = scanMessages m.
Proof.
  intros Hgoto.
  destruct (navigate_failed profileUrl e
              (set_scanResult None (set_scanComplete false m)) Hgoto)
    as (m' & Hrun & _ & _).
  assert (preserves (fun m => (oracle m, scanResult m, scanMessages m)) (navigate profileUrl))
    as Hframe by frame.
  specialize (Hframe (set_scanResult None (set_scanComplete false m))).
  unfold exec in Hframe. rewrite Hrun in Hframe. simpl in Hframe.
  injection Hframe as Ho Hr Hm.
  exists m'. split; [|auto].
  unfold scanProfile, bind at 1, modify. unfold bind at 1. unfold bind at 1.
  rewrite Hrun.
  match goal with |- context [success (failed ?x)] => change (success (failed x)) with false end.
  destruct (3 <=? _)%nat; reflexivity.
Qed.

End DeepScan.

(** A deep scan whose navigation to the profile fails is reported to
    the model as a success: the scanner's result says [success: false],
    but the coordinator answers [success: true] with empty social links
    and the text 'Failed to scan profile - navigation error' for a
    summary.  The scanner's model is not consulted and no scan result
    is stored. *)
Theorem deep_scan_reports_success_when_navigation_fails `{Env}
    (args : JSON) (profileUrl username : string) (e : Err) (m : Machine) :
  jfield "profileUrl" args = Some (JStr profileUrl) ->
  jfield "username" args = Some (JStr username) ->
  gotoThrows profileUrl e m ->
  outcome (scanProfile profileUrl username) m
  = inr {| psr_success := false;
           profileUrl := profileUrl;
           socialLinks := JObj [];
           tldrSummary := JStr "Failed to scan profile - navigation error";
           additionalData := None |}
  /\ outcome (handleScanProfileDeep args) m
     = inr (JObj [("success", JBool true);
                  ("data", JObj [("socialLinks", JObj []);
                                 ("tldrSummary",
                                   JStr "Failed to scan profile - navigation error")])])
  /\ oracle (exec (handleScanProfileDeep args) m) = oracle m
  /\ scanResult (exec (handleScanProfileDeep args) m) = None.
Proof.
  intros Hurl Huser Hgoto.
  destruct (scanProfile_navigation_failed profileUrl username e m Hgoto)
    as (m' & Hrun & Ho & Hr & _).
  assert (args <> JNull) as Hargs by (intros ->; discriminate Hurl).
  split; [unfold outcome; rewrite Hrun; reflexivity|].
  assert (handleScanProfileDeep args m
          = (inr (JObj [("success", JBool true);
                        ("data", JObj [("socialLinks", JObj []);
                                       ("tldrSummary",
                                         JStr "Failed to scan profile - navigation error")])]),
             m')) as Hdeep.
  { unfold handleScanProfileDeep, try_catch.
    unfold bind at 1. rewrite (prop_defined _ _ Hargs). unfold ret at 1.
    unfold bind at 1. rewrite (prop_defined _ _ Hargs). unfold ret at 1.
    rewrite Hurl, Huser. unfold bind at 1. simpl as_string. rewrite Hrun.
    reflexivity. }
  unfold outcome, exec. rewrite Hdeep. simpl. auto.
Qed.

Lemma deep_scan_reports_success_when_navigation_fails_witness :
  let args := JObj [("profileUrl", JStr "github.com/alice"); ("username", JStr "alice")] in
  gotoThrows "github.com/alice" "Timeout" (boot unresponsive)
  /\ outcome (handleScanProfileDeep args) (boot unresponsive)
     = inr (JObj [("success", JBool true);
                  ("data", JObj [("socialLinks", JObj []);
                                 ("tldrSummary",
                                   JStr "Failed to scan profile - navigation error")])]).
Proof.
  intros args.
  assert (gotoThrows "github.com/alice" "Timeout" (boot unresponsive)) as Hgoto
    by (eexists; reflexivity).
  destruct (@deep_scan_reports_success_when_navigation_fails (scripted unresponsive)
              args "github.com/alice" "alice" "Timeout" (boot unresponsive)
              eq_refl eq_refl Hgoto) as (_ & Hanswer & _).
  split; [exact Hgoto|exact Hanswer].
Defined.

(** * The scanner without its model, and the profile data *)

Section ScannerEdges.
Context `{Env}.
Import JsString.




End ScannerEdges.




(** * The command line *)

Section CommandLine.
Import JsString.

Lemma trimStart_head s :
  trimStart s = "" \/ exists c t, trimStart s = String c t /\ is_ws c = false.
Proof.
  induction s as [|c s IH]; [left; reflexivity|].
  simpl. destruct (is_ws c) eqn:Hc; [exact IH|right; eauto].
Qed.

Lemma lastChar_rev_app s acc :
  acc <> "" -> lastChar (String.rev_app s acc) = lastChar acc.
Proof.
  revert acc. induction s as [|a s IH]; intros acc Hacc; [reflexivity|].
  simpl. rewrite IH by discriminate.
  destruct acc; [contradiction|reflexivity].
Qed.

(** A trimmed string does not end in white space. *)
Lemma trim_lastChar s c : lastChar (trim s) = Some c -> is_ws c = false.
Proof.
  unfold trim.
  destruct (trimStart_head (String.rev (trimStart s))) as [->|(c' & t & -> & Hc')];
    [discriminate|].
  unfold String.rev. simpl. rewrite lastChar_rev_app by discriminate.
  simpl. intros [= <-]. exact Hc'.
Qed.

Lemma prefix_sliceFrom p s :
  String.prefix p s = true -> s = p +:+ sliceFrom (String.length p) s.
Proof.
  revert s. induction p as [|a p IH]; intros s.
  - intros _. destruct s; reflexivity.
  - destruct s as [|b s]; [discriminate|]. simpl.
    destruct (Ascii.ascii_dec a b) as [->|]; [|discriminate].
    intros Hp. change (String b s = String b (p +:+ sliceFrom (String.length p) s)).
    f_equal. apply IH, Hp.
Qed.

End CommandLine.

(** A line reaches the agent as a task only when, trimmed, it is not
    empty and is none of 'exit', 'quit' and 'help' in any letter case.
    The task is the trimmed line, less a leading 'search ' in lower
    case, and it is never empty. *)
Theorem forwarded_task_is_never_empty (input task : string) :
  parseInput input = Task task ->
  task <> ""
  /\ (JsString.trim input = task \/ JsString.trim input = "search " +:+ task)
  /\ JsString.toLowerCase (JsString.trim input) <> "exit"
  /\ JsString.toLowerCase (JsString.trim input) <> "quit"
  /\ JsString.toLowerCase (JsString.trim input) <> "help".
Proof.
  unfold parseInput.
  destruct (decide (JsString.trim input = "")) as [|Hne]; [discriminate|].
  destruct (decide (_ \/ _)) as [|Hcmd]; [discriminate|].
  destruct (decide (_ = "help")) as [|Hhelp]; [discriminate|].
  intros [= <-].
  assert (JsString.toLowerCase (JsString.trim input) <> "exit"
          /\ JsString.toLowerCase (JsString.trim input) <> "quit") as [Hexit Hquit]
    by tauto.
  destruct (JsString.startsWith "search " (JsString.trim input)) eqn:Hsearch.
  - apply prefix_sliceFrom in Hsearch.
    change (String.length "search ") with 7 in Hsearch.
    split; [|split; [right; exact Hsearch|auto]].
    intros Hempty. change (sliceFrom 7 (JsString.trim input) = "") in Hempty.
    rewrite Hempty in Hsearch.
    pose proof (trim_lastChar input " "%char) as Hlast.
    rewrite Hsearch in Hlast. discriminate (Hlast eq_refl).
  - split; [exact Hne|]. split; [left; reflexivity|auto].
Qed.

Lemma forwarded_task_is_never_empty_witness :
  parseInput "  search 5 Go developers " = Task "5 Go developers"
  /\ "5 Go developers" <> ""
  /\ parseInput "Search 5 Go developers" = Task "Search 5 Go developers"
  /\ parseInput " EXIT " = Shutdown
  /\ parseInput "search " = Task "search".
Proof.
  assert (parseInput "  search 5 Go developers " = Task "5 Go developers") as Hrun
    by reflexivity.
  destruct (forwarded_task_is_never_empty _ _ Hrun) as (Hne & _).
  split; [exact Hrun|]. split; [exact Hne|].
  split; [reflexivity|]. split; reflexivity.
Defined.

(** * What the two models see of a snapshot *)

Section ModelView.
Context `{Env}.
Import JsString.

Lemma formatElement_fields el :
  jfield "selector" (formatElement el) = None
  /\ jfield "ref" (formatElement el) = Some (JStr (ref el))
  /\ jfield "type" (formatElement el) = Some (JStr (type_name (el_type el)))
  /\ jfield "text" (formatElement el) = Some (JStr (text el))
  /\ jfield "href" (formatElement el)
     = (if decide (nul (href el) = "") then None
        else Some (JStr (slice0 100 (nul (href el))))).
Proof.
  unfold formatElement. destruct (decide (nul (href el) = "")); repeat split; reflexivity.
Qed.

End ModelView.

(** Of a successful snapshot the primary model is shown, per entry, the
    reference, the type, the text and, for an entry with a target, the
    first 100 code units of the target: never the selector.  The
    scanner's model is shown the controller's result as it is, selectors
    included. *)
Theorem primary_model_never_sees_selectors `{Env} (m : Machine) (r : ToolResult) :
  outcome getPageContext m = inr r -> success r = true ->
  exists context,
    data r = Some (DContext context)
    /\ outcome handleGetPageContext m
       = inr (JObj [("success", JBool true);
                    ("data", JObj [("url", JStr (url context));
                                   ("title", JStr (title context));
                                   ("elements",
                                     JArr (formatElement <$> elements context))])])
    /\ (forall el, el ∈ elements context ->
          jfield "selector" (formatElement el) = None
          /\ jfield "ref" (formatElement el) = Some (JStr (ref el))
          /\ jfield "text" (formatElement el) = Some (JStr (text el))
          /\ (forall h, jfield "href" (formatElement el) = Some (JStr h) ->
                        String.length h <= 100))
    /\ (forall id args,
          outcome (executeSubAgentTool
                     {| tc_id := id; tc_name := "get_page_context"; tc_args := args |}) m
          = inr (json_of_result r))
    /\ (forall el, jfield "selector" (json_of_element el) = Some (JStr (selector el))).
Proof.
  intros Hrun Hok.
  destruct (getPageContext_success m r Hrun Hok) as (document & u & t & Hdata & _).
  eexists. split; [exact Hdata|].
  unfold outcome in Hrun. destruct (getPageContext m) as [o m'] eqn:Hpair.
  simpl in Hrun. subst o.
  split.
  { unfold outcome, handleGetPageContext, bind. rewrite Hpair, Hok, Hdata. reflexivity. }
  split.
  { intros el _. destruct (formatElement_fields el) as (Hsel & Href & _ & Htext & Hhref).
    split; [exact Hsel|]. split; [exact Href|]. split; [exact Htext|].
    intros h. rewrite Hhref. case_decide; [discriminate|].
    intros Heq.
    assert (h = JsString.slice0 100 (JsString.nul (href el))) as -> by congruence.
    rewrite JsStringFacts.slice0_length. lia. }
  split; [|intros el; reflexivity].
  intros id args. unfold outcome, executeSubAgentTool. simpl.
  unfold bind. rewrite Hpair. reflexivity.
Qed.

Lemma primary_model_never_sees_selectors_witness :
  outcome handleGetPageContext (boot twoPages)
  = inr (JObj [("success", JBool true);
               ("data", JObj [("url", JStr "about:blank"); ("title", JStr "");
                              ("elements",
                                JArr [JObj [("ref", JStr "link_1"); ("type", JStr "link");
                                            ("text", JStr "Old"); ("href", JStr "/a")]])])]).
Proof.
  destruct (@primary_model_never_sees_selectors (scripted twoPages) (boot twoPages) _
              eq_refl eq_refl) as (context & Hdata & Hanswer & _).
  injection Hdata as <-. exact Hanswer.
Defined.
